(** * Debrid provider aggregation and resolution (addon/moch/moch.js)

    A shallow embedding of [src/addon/moch/moch.js] and the properties of its
    stream aggregator ([applyMochs], [processMochResults],
    [populateCachedLinks], [populateDownloadLinks]), credential guard
    ([isInvalidToken], [blackListToken]), error classifier
    ([errorStreamResponse]) and resolver ([resolve]).

    Conventions of the embedding.
    - A JavaScript string is the list of its UTF-16 code units, so that
      [.length], [.includes] and template concatenation are exact.
    - A property that may be absent is an [option]; JavaScript truthiness of
      such a property is [truthy].
    - A property read whose key comes from the candidates or the
      configuration, [MochOptions[configKey]] of [applyMochs] and
      [mochStreams[stream.infoHash]], also finds the members every ordinary
      object inherits from [Object.prototype] ([lookupMember]). The reads
      of the configuration use a key of the registry, the key "undefined"
      or a fixed name, none of which names such a member, and are
      own-property reads. [resolve],
      [getMochCatalog] and [getMochItemMeta] are embedded for a [mochKey]
      that names no member of [Object.prototype], and the properties about
      them take a provider of the registry.
    - A synchronous [throw] (and hence the rejection of the enclosing async
      function) is the [Throws] case of [Completion]; the provider calls and
      blacklist insertions an aggregation performs are recorded in a trace. *)

From Stdlib Require Import String Ascii NArith ZArith List Bool Lia DecimalString.
From Stdlib Require DecimalPos DecimalZ.
From stdpp Require Import base option list gmap.

Import ListNotations.

(** ** JavaScript strings *)

Abbreviation jsstring := (list N).

(** The code units of an ASCII literal. *)
Fixpoint lit (s : string) : jsstring :=
  match s with
  | EmptyString => []
  | String a s' => N_of_ascii a :: lit s'
  end.
Arguments lit s%_string.

(** [String.prototype.startsWith] at position 0. *)
Fixpoint startsWith (s p : jsstring) : bool :=
  match p, s with
  | [], _ => true
  | _ :: _, [] => false
  | a :: p', b :: s' => N.eqb a b && startsWith s' p'
  end.

(** [String.prototype.includes]. *)
Fixpoint includes (s p : jsstring) : bool :=
  startsWith s p ||
  match s with
  | [] => false
  | _ :: s' => includes s' p
  end.

(** [Array.prototype.includes] on an array of strings. *)
Definition array_includes (l : list jsstring) (x : jsstring) : bool :=
  bool_decide (x ∈ l).

(** Truthiness of a property holding a string or [undefined]. *)
Definition truthy (v : option jsstring) : bool :=
  match v with
  | Some (_ :: _) => true
  | _ => false
  end.

(** A string-or-undefined value inside a template literal, or used as a
    property key. *)
Definition interpolate (v : option jsstring) : jsstring :=
  match v with
  | Some s => s
  | None => lit "undefined"
  end.

(** An integer-or-undefined value inside a template literal, in decimal. *)
Definition interpolateInt (v : option Z) : jsstring :=
  match v with
  | Some z => lit (NilZero.string_of_int (Z.to_int z))
  | None => lit "undefined"
  end.

(** Own-property read [obj[k]] of an object given by its properties in
    enumeration order. *)
Fixpoint assoc {V : Type} (l : list (jsstring * V)) (k : jsstring) : option V :=
  match l with
  | [] => None
  | (k', v) :: l' => if decide (k' = k) then Some v else assoc l' k
  end.

(** ** Members inherited from [Object.prototype]

    [MochOptions] and the maps the providers answer with are ordinary
    objects: they inherit the members of [Object.prototype], and a read
    [obj[k]] finds such a member when [obj] has no own property [k]. Each
    member is a function, or for [__proto__] the prototype object itself:
    a truthy value that has none of the properties [key], [instance],
    [cached] and [url] that the program goes on to read. *)
Definition Object_prototype : list jsstring :=
  [lit "constructor"; lit "__defineGetter__"; lit "__defineSetter__";
   lit "hasOwnProperty"; lit "__lookupGetter__"; lit "__lookupSetter__";
   lit "isPrototypeOf"; lit "propertyIsEnumerable"; lit "toString";
   lit "valueOf"; lit "__proto__"; lit "toLocaleString"].

(** What a read [obj[k]] finds, if anything: an own property of [obj] or a
    member of [Object.prototype]. *)
Inductive Member (V : Type) : Type :=
| Own (v : V)
| Inherited.
Arguments Own {V} v.
Arguments Inherited {V}.

(** [obj[k]], from the own property [k] of [obj], if it has one. *)
Definition lookupMember {V : Type} (own : option V) (k : jsstring)
    : option (Member V) :=
  match own with
  | Some v => Some (Own v)
  | None => if array_includes Object_prototype k then Some Inherited else None
  end.

(** ** Completions: a value or a thrown [TypeError] *)

Inductive Completion (A : Type) : Type :=
| Returns (a : A)
| Throws (msg : jsstring).
Arguments Returns {A} a.
Arguments Throws {A} msg.

#[export] Instance Completion_ret : MRet Completion := fun A a => Returns a.
#[export] Instance Completion_bind : MBind Completion := fun A B f c =>
  match c with
  | Returns a => f a
  | Throws msg => Throws msg
  end.

Definition TypeError : jsstring := lit "TypeError".

(** ** Data model *)

(** The provider modules imported on lines 3-8. *)
Inductive Instance :=
| realdebrid | premiumize | alldebrid | debridlink | offcloud | putio.

#[export] Instance Instance_eq_dec : EqDecision Instance.
Proof. solve_decision. Defined.

Module Moch.
Record t := {
  key : jsstring;
  instance : Instance;
  name : jsstring;
  shortName : jsstring;
  catalog : bool
}.
End Moch.

Module Stream.
(** [behaviorHints] is an opaque object passed by reference. *)
Record t := {
  infoHash : option jsstring;
  name : jsstring;
  title : jsstring;
  url : option jsstring;
  behaviorHints : option N
}.
End Stream.

Module CachedEntry.
Record t := {
  cached : bool;
  url : option jsstring
}.
End CachedEntry.

Abbreviation MochStreams := (gmap jsstring CachedEntry.t).

Module Config.
(** [host] is [config.host]; [props] are the other own enumerable
    properties, in [Object.keys] order, with the string they hold (moch.js
    reads only the credentials among them). *)
Record t := {
  host : option jsstring;
  props : list (jsstring * jsstring)
}.
End Config.

(** [BadTokenError] and [AccessDeniedError] are the two distinguished error
    objects of mochHelper.js, compared by identity; every other rejection
    reason is an [OtherError]. *)
Inductive Error :=
| BadTokenError
| AccessDeniedError
| OtherError (code : N).

#[export] Instance Error_eq_dec : EqDecision Error.
Proof. solve_decision. Defined.

(** What a provider's [getCachedStreams] promise settles to. *)
Inductive Outcome :=
| Resolves (mochStreams : option MochStreams)
| Rejects (error : Error).

Module MochResult.
(** The objects collected by [Promise.all] in [applyMochs]:
    [{ moch, mochStreams }] or [{ moch, error }]. *)
Record t := {
  moch : Moch.t;
  mochStreams : option MochStreams;
  error : option Error
}.
End MochResult.

(** What [Promise.all] collects for one key of the configuration: the result
    of a descriptor of the registry, or the object
    [{ moch, error: BadTokenError }] of line 80 whose [moch] is a member of
    [Object.prototype]. Such a member has no [instance], so that no call
    and no other result is ever collected for it. *)
Inductive Collected :=
| FromMoch (result : MochResult.t)
| FromInherited.

Module MochLookup.
(** A result kept by the filter of line 154: its [mochStreams] is present. *)
Record t := {
  moch : Moch.t;
  mochStreams : MochStreams
}.
End MochLookup.

Module Parameters.
Record t := {
  ip : option jsstring;
  mochKey : option jsstring;
  apiKey : option jsstring;
  infoHash : option jsstring;
  fileIndex : option Z;
  cachedEntryInfo : option jsstring;
  host : option jsstring
}.
End Parameters.

(** Rejection reasons of the promises around [resolve]. [FalseValue] is the
    boolean [false] that the queue's processor passes as the error of a
    successful task. *)
Inductive Reason :=
| ErrorObject (message : jsstring)
| ProviderError (error : Error)
| TimedOut
| FalseValue.

Inductive Settlement :=
| Fulfilled (value : option jsstring)
| Rejected (reason : Reason).

(** A promise, by the time (in milliseconds from its creation) at which it
    settles, if it ever does. *)
Inductive Promise :=
| SettlesAt (t : N) (s : Settlement)
| Pending.

(** ** Collaborators outside moch.js

    The provider modules, [options.js], [static.js] and [streamFilename] of
    mochHelper.js are imported by moch.js; the embedding takes them as an
    interface. *)
Class External := {
  (** [instance.getCachedStreams(streams, token)] *)
  getCachedStreams : Instance → list Stream.t → jsstring → Outcome;
  (** [instance.resolve(parameters)] *)
  instance_resolve : Instance → Parameters.t → Promise;
  streamFilename : Stream.t → jsstring;
  (** [options.includeTorrentLinks], [options.excludeDownloadLinks] *)
  includeTorrentLinks : Config.t → bool;
  excludeDownloadLinks : Config.t → bool;
  (** [StaticResponse.FAILED_ACCESS], [StaticResponse.FAILED_UNEXPECTED] *)
  FAILED_ACCESS : jsstring;
  FAILED_UNEXPECTED : jsstring;
  isStaticUrl : option jsstring → bool
}.

(** ** Traces: provider calls and blacklist insertions *)

Inductive Event :=
| GetCachedStreams (instance : Instance) (token : jsstring)
| BlackListToken (tokenKey : jsstring).

Definition Traced (A : Type) : Type := (list Event * Completion A)%type.

#[export] Instance Traced_ret : MRet Traced := fun A a => ([], Returns a).
#[export] Instance Traced_bind : MBind Traced := fun A B f m =>
  match m with
  | (tr, Returns a) => let '(tr', c) := f a in (tr ++ tr', c)
  | (tr, Throws msg) => (tr, Throws msg)
  end.

Definition emit (e : Event) : Traced unit := ([e], Returns tt).
Definition untraced {A} (c : Completion A) : Traced A := ([], c).

(** ** The provider registry (lines 15-61) *)

Definition RESOLVE_TIMEOUT : N := 2 * 60 * 1000.
Definition MIN_API_KEY_SYMBOLS : nat := 15.

Definition MochOptions : list (jsstring * Moch.t) := [
  (lit "realdebrid",
   {| Moch.key := lit "realdebrid"; Moch.instance := realdebrid;
      Moch.name := lit "RealDebrid"; Moch.shortName := lit "RD";
      Moch.catalog := true |});
  (lit "premiumize",
   {| Moch.key := lit "premiumize"; Moch.instance := premiumize;
      Moch.name := lit "Premiumize"; Moch.shortName := lit "PM";
      Moch.catalog := true |});
  (lit "alldebrid",
   {| Moch.key := lit "alldebrid"; Moch.instance := alldebrid;
      Moch.name := lit "AllDebrid"; Moch.shortName := lit "AD";
      Moch.catalog := true |});
  (lit "debridlink",
   {| Moch.key := lit "debridlink"; Moch.instance := debridlink;
      Moch.name := lit "DebridLink"; Moch.shortName := lit "DL";
      Moch.catalog := true |});
  (lit "offcloud",
   {| Moch.key := lit "offcloud"; Moch.instance := offcloud;
      Moch.name := lit "Offcloud"; Moch.shortName := lit "OC";
      Moch.catalog := true |});
  (lit "putio",
   {| Moch.key := lit "putio"; Moch.instance := putio;
      Moch.name := lit "Put.io"; Moch.shortName := lit "Putio";
      Moch.catalog := false |})
].

(** [Object.keys(obj)] *)
Definition Object_keys {V : Type} (props : list (jsstring * V)) : list jsstring :=
  props.*1.

(** The zero-seeders marker: U+1F464 (bust in silhouette), a space and the
    digit 0, in UTF-16. *)
Definition zeroSeeders : jsstring := [0xD83D; 0xDC64; 0x20; 0x30]%N.

(** ** The credential guard (lines 202-210) *)

Definition tokenKey (token mochKey : jsstring) : jsstring :=
  mochKey ++ lit "|" ++ token.

Definition isInvalidToken (TOKEN_BLACKLIST : list jsstring)
    (token mochKey : jsstring) : bool :=
  (length token <? MIN_API_KEY_SYMBOLS)%nat
  || array_includes TOKEN_BLACKLIST (tokenKey token mochKey).

Definition blackListToken (token mochKey : jsstring) : Traced unit :=
  emit (BlackListToken (tokenKey token mochKey)).

(** The blacklist after the insertions recorded in a trace. *)
Definition blacklistAfter (TOKEN_BLACKLIST : list jsstring) (tr : list Event)
    : list jsstring :=
  TOKEN_BLACKLIST ++
  omap (fun e => match e with BlackListToken k => Some k | _ => None end) tr.

(** The provider modules whose [getCachedStreams] a trace invokes. *)
Definition providerCalls (tr : list Event) : list Instance :=
  omap (fun e => match e with GetCachedStreams i _ => Some i | _ => None end) tr.

(** ** The health policy (lines 195-200) *)

Definition isHealthyStreamForDebrid (streams : list Stream.t) (stream : Stream.t)
    : bool :=
  let isZeroSeeders := includes (Stream.title stream) zeroSeeders in
  let is4kStream := includes (Stream.name stream) (lit "4k") in
  let isNotEnoughOptions := (length streams <=? 5)%nat in
  negb isZeroSeeders || is4kStream || isNotEnoughOptions.

Section Aggregator.
Context `{External}.

(** [hasMochConfigured] (lines 67-69); [config] may be [undefined]. *)
Definition hasMochConfigured (config : option Config.t) : option jsstring :=
  List.find
    (fun moch => truthy (config ≫= fun c => assoc (Config.props c) moch))
    (Object_keys MochOptions).

(** ** The error classifier (lines 212-228) *)

(** The object literals of lines 214-218 and 221-225. *)
Definition badTokenStream (moch : Moch.t) (config : Config.t) : Stream.t :=
  {| Stream.infoHash := None;
     Stream.name := lit "Torrentio" ++ [10%N] ++ Moch.shortName moch ++ lit " error";
     Stream.title := lit "Invalid " ++ Moch.name moch ++ lit " ApiKey/Token!";
     Stream.url := Some (interpolate (Config.host config) ++ lit "/" ++ FAILED_ACCESS);
     Stream.behaviorHints := None |}.

Definition accessDeniedStream (moch : Moch.t) (config : Config.t) : Stream.t :=
  {| Stream.infoHash := None;
     Stream.name := lit "Torrentio" ++ [10%N] ++ Moch.shortName moch ++ lit " error";
     Stream.title := lit "Expired/invalid " ++ Moch.name moch ++ lit " subscription!";
     Stream.url := Some (interpolate (Config.host config) ++ lit "/" ++ FAILED_ACCESS);
     Stream.behaviorHints := None |}.

(** [mochKey] is the [key] of a collected result's [moch]: a key of the
    registry, or [undefined], read as the key "undefined", for a member of
    [Object.prototype]. Reading [MochOptions[mochKey].shortName] throws when
    the registry has no [mochKey]. *)
Definition errorStreamResponse (mochKey : jsstring) (error : option Error)
    (config : Config.t) : Completion (option Stream.t) :=
  match error with
  | Some BadTokenError =>
      match assoc MochOptions mochKey with
      | Some moch => Returns (Some (badTokenStream moch config))
      | None => Throws TypeError
      end
  | Some AccessDeniedError =>
      match assoc MochOptions mochKey with
      | Some moch => Returns (Some (accessDeniedStream moch config))
      | None => Throws TypeError
      end
  | _ => Returns None
  end.

(** ** Merging cached links (lines 162-175) *)

(** The object literal of lines 166-171. *)
Definition cachedLink (stream : Stream.t) (moch : Moch.t)
    (cachedEntry : CachedEntry.t) (config : Config.t) : Stream.t :=
  {| Stream.infoHash := None;
     Stream.name := lit "[" ++ Moch.shortName moch ++ lit "+] " ++ Stream.name stream;
     Stream.title := Stream.title stream;
     Stream.url := Some (interpolate (Config.host config) ++ lit "/" ++ Moch.key moch
                         ++ lit "/" ++ interpolate (CachedEntry.url cachedEntry)
                         ++ lit "/" ++ streamFilename stream);
     Stream.behaviorHints := Stream.behaviorHints stream |}.

(** A member of [Object.prototype] read as a cached entry: its [cached] and
    its [url] are [undefined]. *)
Definition inheritedEntry : CachedEntry.t :=
  {| CachedEntry.cached := false; CachedEntry.url := None |}.

(** [mochStreams[infoHash]] (lines 164 and 181): the own entry of the map,
    or a member of [Object.prototype] when the map has no own entry and
    [infoHash] is the name of one. *)
Definition mochStreams_get (mochStreams : MochStreams) (infoHash : jsstring)
    : option CachedEntry.t :=
  match lookupMember (mochStreams !! infoHash) infoHash with
  | Some (Own cachedEntry) => Some cachedEntry
  | Some Inherited => Some inheritedEntry
  | None => None
  end.

(** [stream.infoHash && mochResult.mochStreams[stream.infoHash]], kept when
    it is an entry and dropped when it is a falsy [infoHash] or no entry. *)
Definition cachedEntryOf (stream : Stream.t) (mochResult : MochLookup.t)
    : option CachedEntry.t :=
  if truthy (Stream.infoHash stream)
  then mochStreams_get (MochLookup.mochStreams mochResult)
         (interpolate (Stream.infoHash stream))
  else None.

(** [cachedEntry?.cached] as a condition. *)
Definition isCached (cachedEntry : option CachedEntry.t) : bool :=
  match cachedEntry with
  | Some e => CachedEntry.cached e
  | None => false
  end.

(** The callback of the [map] (lines 163-174). *)
Definition populateCachedLink (mochResult : MochLookup.t) (config : Config.t)
    (stream : Stream.t) : Stream.t :=
  let cachedEntry := cachedEntryOf stream mochResult in
  match cachedEntry with
  | Some e =>
      if CachedEntry.cached e
      then cachedLink stream (MochLookup.moch mochResult) e config
      else stream
  | None => stream
  end.

Definition populateCachedLinks (streams : list Stream.t)
    (mochResult : MochLookup.t) (config : Config.t) : list Stream.t :=
  populateCachedLink mochResult config <$> streams.

(** ** Synthesizing download links (lines 177-193) *)

(** The object literal of lines 184-189. *)
Definition downloadLink (stream : Stream.t) (moch : Moch.t)
    (cachedEntry : CachedEntry.t) (config : Config.t) : Stream.t :=
  {| Stream.infoHash := None;
     Stream.name := lit "[" ++ Moch.shortName moch ++ lit " download] " ++ Stream.name stream;
     Stream.title := Stream.title stream;
     Stream.url := Some (interpolate (Config.host config) ++ lit "/" ++ Moch.key moch
                         ++ lit "/" ++ interpolate (CachedEntry.url cachedEntry)
                         ++ lit "/" ++ streamFilename stream);
     Stream.behaviorHints := Stream.behaviorHints stream |}.

Definition torrentStreams (streams : list Stream.t) : list Stream.t :=
  List.filter (fun stream => truthy (Stream.infoHash stream)) streams.

Definition seededStreams (streams : list Stream.t) : list Stream.t :=
  List.filter (fun stream => negb (includes (Stream.title stream) zeroSeeders)) streams.

(** The body of the inner [forEach] (lines 181-190): the entry it pushes,
    if any. Reading [cachedEntry.url] of an absent entry throws; for a
    member of [Object.prototype] it gives [undefined], and the entry is
    pushed. *)
Definition pushDownloadLink (seeded : list Stream.t) (config : Config.t)
    (stream : Stream.t) (mochResult : MochLookup.t)
    : Completion (option Stream.t) :=
  let cachedEntry :=
    mochStreams_get (MochLookup.mochStreams mochResult)
      (interpolate (Stream.infoHash stream)) in
  if negb (isCached cachedEntry) && isHealthyStreamForDebrid seeded stream
  then match cachedEntry with
       | Some e => Returns (Some (downloadLink stream (MochLookup.moch mochResult) e config))
       | None => Throws TypeError
       end
  else Returns None.

(** The entries are pushed onto [streams] itself, after [torrentStreams] and
    [seededStreams] have been copied out of it, so the loops do not see them.
    The array is the one built by the [map] of [populateCachedLinks], or the
    caller's own when there is no lookup, and then nothing is pushed. *)
Definition populateDownloadLinks (streams : list Stream.t)
    (mochResults : list MochLookup.t) (config : Config.t)
    : Completion (list Stream.t) :=
  let seeded := seededStreams streams in
  pushed ← mapM (fun stream =>
              mapM (pushDownloadLink seeded config stream) mochResults)
            (torrentStreams streams);
  mret (streams ++ omap id (mjoin pushed)).

(** ** Processing the collected results (lines 144-160) *)

(** [results.filter(result => result?.mochStreams)] *)
Definition lookupOf (result : MochResult.t) : option MochLookup.t :=
  ms ← MochResult.mochStreams result;
  Some {| MochLookup.moch := MochResult.moch result; MochLookup.mochStreams := ms |}.

(** [result.moch.key] as the property key of line 215 or 222, [result.error]
    and [result?.mochStreams] of a collected result. *)
Definition collectedKey (result : Collected) : jsstring :=
  match result with
  | FromMoch result => Moch.key (MochResult.moch result)
  | FromInherited => interpolate None
  end.

Definition collectedError (result : Collected) : option Error :=
  match result with
  | FromMoch result => MochResult.error result
  | FromInherited => Some BadTokenError
  end.

Definition collectedLookup (result : Collected) : option MochLookup.t :=
  match result with
  | FromMoch result => lookupOf result
  | FromInherited => None
  end.

(** The reduce of lines 156-157. *)
Definition cachedStreams (streams : list Stream.t)
    (mochResults : list MochLookup.t) (config : Config.t) : list Stream.t :=
  fold_left
    (fun resultStreams mochResult => populateCachedLinks resultStreams mochResult config)
    mochResults streams.

Definition processMochResults (streams : list Stream.t) (config : Config.t)
    (results : list Collected) : Completion (list Stream.t) :=
  errorResponses ← mapM (fun result =>
      errorStreamResponse (collectedKey result) (collectedError result) config)
    results;
  let errorResults := omap id errorResponses in
  if (0 <? length errorResults)%nat then mret errorResults
  else
    let mochResults := omap collectedLookup results in
    let cached := cachedStreams streams mochResults config in
    resultStreams ← (if excludeDownloadLinks config then mret cached
                     else populateDownloadLinks cached mochResults config);
    mret (if includeTorrentLinks config then resultStreams
          else List.filter (fun stream => truthy (Stream.url stream)) resultStreams).

(** ** Fan-out to the configured providers (lines 71-92) *)

(** The callback of the last [map] (lines 78-90) for a descriptor of the
    registry. Every guard check of one aggregation runs before any rejection
    handler, so all of them read the blacklist as it is when [applyMochs] is
    entered. The trace holds the call and, with it, the insertion that the
    rejection handler of that call makes once the provider has answered,
    whether or not the [map] has thrown in the meantime. *)
Definition callMoch (TOKEN_BLACKLIST : list jsstring) (streams : list Stream.t)
    (config : Config.t) (moch : Moch.t) : Traced MochResult.t :=
  match assoc (Config.props config) (Moch.key moch) with
  | None => untraced (Throws TypeError)
  | Some token =>
      if isInvalidToken TOKEN_BLACKLIST token (Moch.key moch)
      then mret {| MochResult.moch := moch; MochResult.mochStreams := None;
                   MochResult.error := Some BadTokenError |}
      else
        _ ← emit (GetCachedStreams (Moch.instance moch) token);
        match getCachedStreams (Moch.instance moch) streams token with
        | Resolves mochStreams =>
            mret {| MochResult.moch := moch; MochResult.mochStreams := mochStreams;
                    MochResult.error := None |}
        | Rejects error =>
            _ ← (if decide (error = BadTokenError)
                 then blackListToken token (Moch.key moch) else mret tt);
            mret {| MochResult.moch := moch; MochResult.mochStreams := None;
                    MochResult.error := Some error |}
        end
  end.

(** The same callback for a member of [Object.prototype]. Its [key] is
    [undefined], so the credential is [config[undefined]], the property
    "undefined" of the configuration: reading [token.length] throws when
    there is none, and when the guard lets one pass, reading
    [moch.instance.getCachedStreams] throws. *)
Definition callInherited (TOKEN_BLACKLIST : list jsstring) (config : Config.t)
    : Traced Collected :=
  match assoc (Config.props config) (interpolate None) with
  | None => untraced (Throws TypeError)
  | Some token =>
      if isInvalidToken TOKEN_BLACKLIST token (interpolate None)
      then mret FromInherited
      else untraced (Throws TypeError)
  end.

(** The callback applied to an element of the array of lines 75-77. *)
Definition callMember (TOKEN_BLACKLIST : list jsstring) (streams : list Stream.t)
    (config : Config.t) (moch : Member Moch.t) : Traced Collected :=
  match moch with
  | Own moch =>
      result ← callMoch TOKEN_BLACKLIST streams config moch;
      mret (FromMoch result)
  | Inherited => callInherited TOKEN_BLACKLIST config
  end.

(** [MochOptions[configKey]] of lines 76-77. *)
Definition MochOptions_get (configKey : jsstring) : option (Member Moch.t) :=
  lookupMember (assoc MochOptions configKey) configKey.

(** The array of lines 75-77: what [MochOptions] holds, as own or inherited
    member, under the keys of [config], in [Object.keys(config)] order. *)
Definition configuredMochs (config : Config.t) : list (Member Moch.t) :=
  omap MochOptions_get (Object_keys (Config.props config)).

(** [!streams?.length] *)
Definition noLength (streams : option (list Stream.t)) : bool :=
  match streams with
  | Some (_ :: _) => false
  | _ => true
  end.

Definition applyMochs (TOKEN_BLACKLIST : list jsstring)
    (streams : option (list Stream.t)) (config : option Config.t)
    : Traced (option (list Stream.t)) :=
  if noLength streams || negb (truthy (hasMochConfigured config))
  then mret streams
  else
    match streams, config with
    | Some ss, Some cfg =>
        results ← mapM (callMember TOKEN_BLACKLIST ss cfg) (configuredMochs cfg);
        resultStreams ← untraced (processMochResults ss cfg results);
        mret (Some resultStreams)
    | _, _ => untraced (Throws TypeError)
    end.

End Aggregator.

(** ** The resolver (lines 63-65 and 94-113) *)

Section Resolver.
Context `{External}.

(** Modelled from the spec: [timeout] of lib/promises.js, which is not part
    of moch.js. The wrapped promise wins when it settles before the
    deadline; otherwise the result rejects at the deadline. *)
Definition timeout (ms : N) (p : Promise) : Promise :=
  match p with
  | SettlesAt t s =>
      if (t <? ms)%N then SettlesAt t s else SettlesAt ms (Rejected TimedOut)
  | Pending => SettlesAt ms (Rejected TimedOut)
  end.

(** Modelled from the spec: [cacheWrapResolvedUrl] of lib/cache.js, the
    idempotent get-or-compute on the resolved-URL cache. [compute] is the
    promise the computation returns if it is started. *)
Definition cacheWrapResolvedUrl (cache : gmap jsstring jsstring)
    (id : jsstring) (compute : Promise) : Promise :=
  match cache !! id with
  | Some url => SettlesAt 0 (Fulfilled (Some url))
  | None => compute
  end.

(** [promise.catch(handler)] and [promise.then(handler)] for handlers that
    return a value. *)
Definition catch (p : Promise) (handler : Reason → option jsstring) : Promise :=
  match p with
  | SettlesAt t (Rejected error) => SettlesAt t (Fulfilled (handler error))
  | _ => p
  end.

Definition then_ (p : Promise) (handler : option jsstring → option jsstring)
    : Promise :=
  match p with
  | SettlesAt t (Fulfilled value) => SettlesAt t (Fulfilled (handler value))
  | _ => p
  end.

(** The deduplication id of line 103. *)
Definition resolveId (parameters : Parameters.t) : jsstring :=
  interpolate (Parameters.ip parameters) ++ lit "_"
  ++ interpolate (Parameters.mochKey parameters) ++ lit "_"
  ++ interpolate (Parameters.apiKey parameters) ++ lit "_"
  ++ interpolate (Parameters.infoHash parameters) ++ lit "_"
  ++ interpolateInt (Parameters.fileIndex parameters).

(** [method] of lines 104-109. *)
Definition method (cache : gmap jsstring jsstring) (moch : Moch.t)
    (parameters : Parameters.t) : Promise :=
  then_
    (catch
       (timeout RESOLVE_TIMEOUT
          (cacheWrapResolvedUrl cache (resolveId parameters)
             (instance_resolve (Moch.instance moch) parameters)))
       (fun error => Some FAILED_UNEXPECTED))
    (fun url =>
       if isStaticUrl url
       then Some (interpolate (Parameters.host parameters) ++ lit "/" ++ interpolate url)
       else url).

(** The processor of [unrestrictQueue] (lines 63-65) applied to a task
    whose [method()] is [m]; the result is the promise that the callback's
    caller settles. *)
Definition unrestrictQueue_processor (m : Promise)
    (callback : Reason → option jsstring → Settlement) : Promise :=
  match m with
  | SettlesAt t (Fulfilled result) => SettlesAt t (callback FalseValue result)
  | SettlesAt t (Rejected error) => SettlesAt t (callback error None)
  | Pending => Pending
  end.

(** Modelled from the spec: [push] of the queue built by the named-queue
    package, which is not part of moch.js, for one task on an idle queue. The
    queue hands the task to the processor at once and passes the arguments
    of the processor's callback on to [cb]. A task that the queue holds back
    behind 20 running ones, and a caller that it attaches to a running task
    of the same id, are outside this definition. *)
Definition unrestrictQueue_push (m : Promise)
    (cb : Reason → option jsstring → Settlement) : Promise :=
  unrestrictQueue_processor m cb.

(** [resolve] (lines 94-113), for a [mochKey] that names no member of
    [Object.prototype]. *)
Definition resolve (cache : gmap jsstring jsstring) (parameters : Parameters.t)
    : Promise :=
  match assoc MochOptions (interpolate (Parameters.mochKey parameters)) with
  | None =>
      SettlesAt 0 (Rejected (ErrorObject
        (lit "Not a valid moch provider: " ++ interpolate (Parameters.mochKey parameters))))
  | Some moch =>
      if negb (truthy (Parameters.apiKey parameters))
         || negb (truthy (Parameters.infoHash parameters))
         || negb (truthy (Parameters.cachedEntryInfo parameters))
      then SettlesAt 0 (Rejected (ErrorObject (lit "No valid parameters passed")))
      else
        unrestrictQueue_push (method cache moch parameters)
          (fun error result =>
             if truthy result then Fulfilled result else Rejected error)
  end.

End Resolver.

(** ** Notions used to state the properties *)

Section Notions.
Context `{External}.

(** The descriptors the registry holds under the keys of [config], in
    [Object.keys(config)] order: the providers an aggregation considers. *)
Definition registeredMochs (config : Config.t) : list Moch.t :=
  omap (assoc MochOptions) (Object_keys (Config.props config)).

(** The keys of [config] that name a member of [Object.prototype]. *)
Definition inheritedKeys (config : Config.t) : list jsstring :=
  List.filter (array_includes Object_prototype) (Object_keys (Config.props config)).

(** The result [Promise.all] collects for [moch]. *)
Definition mochResult (TOKEN_BLACKLIST : list jsstring) (streams : list Stream.t)
    (config : Config.t) (moch : Moch.t) : MochResult.t :=
  match (callMoch TOKEN_BLACKLIST streams config moch).2 with
  | Returns result => result
  | Throws _ =>
      {| MochResult.moch := moch; MochResult.mochStreams := None;
         MochResult.error := None |}
  end.

(** The error, if any, that result carries. *)
Definition mochError (TOKEN_BLACKLIST : list jsstring) (streams : list Stream.t)
    (config : Config.t) (moch : Moch.t) : option Error :=
  MochResult.error (mochResult TOKEN_BLACKLIST streams config moch).

(** The errors the classifier turns into a placeholder. *)
Definition classified (error : option Error) : bool :=
  match error with
  | Some BadTokenError | Some AccessDeniedError => true
  | _ => false
  end.

(** The providers considered whose result carries a classified error, in
    [Object.keys(config)] order. *)
Definition failingMochs (TOKEN_BLACKLIST : list jsstring)
    (streams : list Stream.t) (config : Config.t) : list Moch.t :=
  List.filter
    (fun moch => classified (mochError TOKEN_BLACKLIST streams config moch))
    (registeredMochs config).

(** The placeholder of a failing provider. *)
Definition placeholder (config : Config.t) (moch : Moch.t)
    (error : option Error) : Stream.t :=
  match error with
  | Some AccessDeniedError => accessDeniedStream moch config
  | _ => badTokenStream moch config
  end.

(** [mochResult] reports the identifier of [stream] as cached. *)
Definition reportsCached (stream : Stream.t) (mochResult : MochLookup.t) : bool :=
  isCached (cachedEntryOf stream mochResult).

End Notions.

(** ** Sample collaborators and inputs *)

Definition sampleFailedAccess : jsstring := lit "videos/failed_access_v2.mp4".
Definition sampleFailedUnexpected : jsstring := lit "videos/failed_unexpected_v2.mp4".

(** Collaborators whose providers answer [answers] and [resolves], with
    download links excluded or not. *)
Definition sampleExternal (answers : Instance → Outcome) (resolves : Promise)
    (noDownloadLinks : bool) : External :=
  {| getCachedStreams := fun instance _ _ => answers instance;
     instance_resolve := fun _ _ => resolves;
     streamFilename := fun _ => lit "Movie.mkv";
     includeTorrentLinks := fun _ => false;
     excludeDownloadLinks := fun _ => noDownloadLinks;
     FAILED_ACCESS := sampleFailedAccess;
     FAILED_UNEXPECTED := sampleFailedUnexpected;
     isStaticUrl := fun url =>
       match url with
       | Some u => includes u (lit "videos/")
       | None => false
       end |}.

Definition sampleToken : jsstring := lit "0123456789abcdefghij".
Definition sampleHost : option jsstring := Some (lit "http://host").

(** [{infoHash: 'abc', name: 'Movie', title: '<zero seeders> 1GB'}] *)
Definition movie : Stream.t :=
  {| Stream.infoHash := Some (lit "abc");
     Stream.name := lit "Movie";
     Stream.title := zeroSeeders ++ lit " 1GB";
     Stream.url := None;
     Stream.behaviorHints := Some 7%N |}.

Definition configOf (props : list (jsstring * jsstring)) : Config.t :=
  {| Config.host := sampleHost; Config.props := props |}.

(** The lookup map [{abc: {cached, url}}]. *)
Definition reports (cached : bool) (url : jsstring) : MochStreams :=
  {[ lit "abc" := {| CachedEntry.cached := cached; CachedEntry.url := Some url |} ]}.

(** The descriptors registered under [realdebrid] and [premiumize]. *)
Definition RealDebrid : Moch.t :=
  {| Moch.key := lit "realdebrid"; Moch.instance := realdebrid;
     Moch.name := lit "RealDebrid"; Moch.shortName := lit "RD";
     Moch.catalog := true |}.

Definition Premiumize : Moch.t :=
  {| Moch.key := lit "premiumize"; Moch.instance := premiumize;
     Moch.name := lit "Premiumize"; Moch.shortName := lit "PM";
     Moch.catalog := true |}.

(** [{realdebrid: token, premiumize: token}], keys in registry order. *)
Definition rdThenPm : Config.t :=
  configOf [(lit "realdebrid", sampleToken); (lit "premiumize", sampleToken)].

(** RealDebrid rejects with [AccessDeniedError]; the others report [abc]
    as cached. *)
Definition rdDenied (instance : Instance) : Outcome :=
  match instance with
  | realdebrid => Rejects AccessDeniedError
  | _ => Resolves (Some (reports true (lit "pm-url")))
  end.

(** Every provider reports [abc] as cached, under its own url. *)
Definition allCached (instance : Instance) : Outcome :=
  match instance with
  | realdebrid => Resolves (Some (reports true (lit "rd-url")))
  | _ => Resolves (Some (reports true (lit "pm-url")))
  end.


(** [{premiumize: token, realdebrid: token}], keys against registry order. *)
Definition pmThenRd : Config.t :=
  configOf [(lit "premiumize", sampleToken); (lit "realdebrid", sampleToken)].

(** The successful lookup of RealDebrid reporting [abc] with [cached]. *)
Definition rdLookup (cached : bool) : MochLookup.t :=
  {| MochLookup.moch := RealDebrid;
     MochLookup.mochStreams := reports cached (lit "rd-url") |}.

(** [{realdebrid: token}] *)
Definition rdOnly : Config.t := configOf [(lit "realdebrid", sampleToken)].

(** Every provider answers with the empty map [{}]. *)
Definition noEntries (instance : Instance) : Outcome := Resolves (Some ∅).

(** Every provider answers [{abc: {cached: false}}], as in the example of
    the specification. *)
Definition uncachedNoUrl (instance : Instance) : Outcome :=
  Resolves (Some {[ lit "abc" := {| CachedEntry.cached := false;
                                    CachedEntry.url := None |} ]}).

(** Six candidates, all flagged with zero seeders, none of them 4k. *)
Definition zeroSeederPool : list Stream.t := replicate 6 movie.

(** A well-formed resolve request for RealDebrid. *)
Definition sampleParameters : Parameters.t :=
  {| Parameters.ip := Some (lit "10.0.0.1");
     Parameters.mochKey := Some (lit "realdebrid");
     Parameters.apiKey := Some sampleToken;
     Parameters.infoHash := Some (lit "abc");
     Parameters.fileIndex := Some 0%Z;
     Parameters.cachedEntryInfo := Some (lit "null");
     Parameters.host := sampleHost |}.

(** A resolved-URL cache holding the empty string for that request. *)
Definition emptyUrlCache : gmap jsstring jsstring :=
  {[ resolveId sampleParameters := [] ]}.

(** RealDebrid rejects the credential with [BadTokenError]. *)
Definition rdBadToken (instance : Instance) : Outcome :=
  match instance with
  | realdebrid => Rejects BadTokenError
  | _ => Resolves (Some (reports true (lit "pm-url")))
  end.

(** The sample collaborators, by what the providers answer. *)
Definition extAllCached : External := sampleExternal allCached Pending false.
Definition extRdDenied : External := sampleExternal rdDenied Pending false.
Definition extRdBadToken : External := sampleExternal rdBadToken Pending false.
Definition extNoEntries : External := sampleExternal noEntries Pending false.
Definition extUncachedNoUrl : External := sampleExternal uncachedNoUrl Pending false.

(** The entries [{cached: true, url}] of RealDebrid and Premiumize, and
    RealDebrid's [{cached: false, url}]. *)
Definition rdEntry : CachedEntry.t :=
  {| CachedEntry.cached := true; CachedEntry.url := Some (lit "rd-url") |}.
Definition pmEntry : CachedEntry.t :=
  {| CachedEntry.cached := true; CachedEntry.url := Some (lit "pm-url") |}.
Definition rdUncachedEntry : CachedEntry.t :=
  {| CachedEntry.cached := false; CachedEntry.url := Some (lit "rd-url") |}.

(** ** Catalog and item metadata (lines 115-142) *)

(** What the promise of [getMochCatalog] or [getMochItemMeta] rejects with:
    an [Error] built in moch.js, a [TypeError] thrown while the function
    runs, or whatever the collaborator rejected with. *)
Inductive Rejection :=
| RejectError (message : jsstring)
| RejectTypeError
| RejectWith (error : Error).

Inductive Async (A : Type) : Type :=
| Fulfils (a : A)
| Fails (r : Rejection).
Arguments Fulfils {A} a.
Arguments Fails {A} r.

Module Video.
(** [streams] holds references to stream objects. *)
Record t := {
  streams : option (list N)
}.
End Video.

Module ItemMeta.
(** A metadata object: its [videos], and the [url] property of the stream
    objects they refer to (a stream object without [url] has no entry). *)
Record t := {
  videos : option (list Video.t);
  url : gmap N jsstring
}.
End ItemMeta.

(** The provider requests of the catalog and metadata paths. *)
Inductive Request :=
| GetCatalog (instance : Instance) (token skip ip : option jsstring)
| GetItemMeta (instance : Instance) (itemId : jsstring) (token ip : option jsstring).

(** The collaborators of these paths: [instance.getCatalog],
    [instance.getItemMeta] and [enrichMeta] of mochHelper.js. A catalog is
    a list of opaque items. *)
Class ExternalCatalog := {
  getCatalog : Instance → option jsstring → option jsstring → option jsstring
               → Async (list N);
  getItemMeta : Instance → jsstring → option jsstring → option jsstring
                → Async ItemMeta.t;
  enrichMeta : ItemMeta.t → Async ItemMeta.t
}.

Section Catalog.
Context `{ExternalCatalog}.

(** [getMochCatalog] (lines 115-124), for a [config] that is an object and
    a [mochKey] that names no member of [Object.prototype]. Reading
    [token.length] of an absent credential throws. *)
Definition getMochCatalog (TOKEN_BLACKLIST : list jsstring) (mochKey : jsstring)
    (config : Config.t) : list Request * Async (list N) :=
  match assoc MochOptions mochKey with
  | None =>
      ([], Fails (RejectError (lit "Not a valid moch provider: " ++ mochKey)))
  | Some moch =>
      match assoc (Config.props config) mochKey with
      | None => ([], Fails RejectTypeError)
      | Some token =>
          if isInvalidToken TOKEN_BLACKLIST token mochKey
          then ([], Fails (RejectError
                  (lit "Invalid API key for moch provider: " ++ mochKey)))
          else
            let token := assoc (Config.props config) (Moch.key moch) in
            let skip := assoc (Config.props config) (lit "skip") in
            let ip := assoc (Config.props config) (lit "ip") in
            ([GetCatalog (Moch.instance moch) token skip ip],
             getCatalog (Moch.instance moch) token skip ip)
      end
  end.

(** The streams of all videos, in order (lines 135-137): concatenating an
    absent [streams] leaves an [undefined] element. *)
Definition allStreams (videos : list Video.t) : list (option N) :=
  mjoin ((fun video =>
            match Video.streams video with
            | Some streams => Some <$> streams
            | None => [None]
            end) <$> videos).

(** The filter of line 138: the streams whose url does not start with
    "http". Reading [url] of [undefined], or [startsWith] of an absent
    [url], throws. *)
Definition relativeStreams (meta : ItemMeta.t) : Completion (list N) :=
  match ItemMeta.videos meta with
  | None => Throws TypeError
  | Some videos =>
      kept ← mapM (fun stream =>
                match stream with
                | None => Throws TypeError
                | Some ref =>
                    match ItemMeta.url meta !! ref with
                    | None => Throws TypeError
                    | Some url =>
                        Returns (if startsWith url (lit "http") then None
                                 else Some ref)
                    end
                end) (allStreams videos);
      mret (omap id kept)
  end.

(** The assignment of line 139 to the stream object [ref]. *)
Definition rewriteUrl (config : Config.t) (moch : Moch.t)
    (urls : gmap N jsstring) (ref : N) : gmap N jsstring :=
  <[ref := interpolate (Config.host config) ++ lit "/" ++ Moch.key moch
           ++ lit "/" ++ interpolate (urls !! ref)]> urls.

(** The last [then] callback (lines 134-141): the stream objects are
    updated in place, one after the other, and the same [meta] is
    returned. *)
Definition rewriteStreamUrls (config : Config.t) (moch : Moch.t)
    (meta : ItemMeta.t) : Completion ItemMeta.t :=
  streams ← relativeStreams meta;
  mret {| ItemMeta.videos := ItemMeta.videos meta;
          ItemMeta.url := fold_left (rewriteUrl config moch) streams
                            (ItemMeta.url meta) |}.

(** [getMochItemMeta] (lines 126-142), for a [config] that is an object and
    a [mochKey] that names no member of [Object.prototype]. *)
Definition getMochItemMeta (mochKey itemId : jsstring) (config : Config.t)
    : list Request * Async ItemMeta.t :=
  match assoc MochOptions mochKey with
  | None =>
      ([], Fails (RejectError (lit "Not a valid moch provider: " ++ mochKey)))
  | Some moch =>
      let token := assoc (Config.props config) (Moch.key moch) in
      let ip := assoc (Config.props config) (lit "ip") in
      ([GetItemMeta (Moch.instance moch) itemId token ip],
       match getItemMeta (Moch.instance moch) itemId token ip with
       | Fails r => Fails r
       | Fulfils meta =>
           match enrichMeta meta with
           | Fails r => Fails r
           | Fulfils meta =>
               match rewriteStreamUrls config moch meta with
               | Returns meta => Fulfils meta
               | Throws _ => Fails RejectTypeError
               end
           end
       end)
  end.

End Catalog.

(** ** The name clean-up of the scraper (unnamed/part_000, lines 142-145) *)

(** The alternatives of the pattern [/S01|S02|...|S09/g]. *)
Definition seasonTags : list jsstring :=
  [lit "S01"; lit "S02"; lit "S03"; lit "S04"; lit "S05";
   lit "S06"; lit "S07"; lit "S08"; lit "S09"].

(** The pattern matches at the start of the string. *)
Definition isSeasonTag (name : jsstring) : bool :=
  existsb (startsWith name) seasonTags.

(** [name.replace(/S01|...|S09/g, '')] with [skip] code units of a match
    still to drop: matches are taken from left to right and do not
    overlap, and each is three code units long. *)
Fixpoint parseNameFrom (skip : nat) (name : jsstring) : jsstring :=
  match name with
  | [] => []
  | c :: rest =>
      match skip with
      | S k => parseNameFrom k rest
      | O => if isSeasonTag name then parseNameFrom 2 rest
             else c :: parseNameFrom 0 rest
      end
  end.

Definition parseName (name : jsstring) : jsstring := parseNameFrom 0 name.

(** ** More sample collaborators and inputs *)

(** Every provider rejects with an error that is not classified. *)
Definition allOther (instance : Instance) : Outcome := Rejects (OtherError 1).
Definition extAllOther : External := sampleExternal allOther Pending false.

(** [{realdebrid: token, constructor: 'x'}]: RealDebrid's credential and a
    key that names a member of [Object.prototype]. *)
Definition rdThenConstructor : Config.t :=
  configOf [(lit "realdebrid", sampleToken); (lit "constructor", lit "x")].

(** A candidate whose identifier names a member of [Object.prototype]. *)
Definition toStringMovie : Stream.t :=
  {| Stream.infoHash := Some (lit "toString");
     Stream.name := lit "Movie";
     Stream.title := lit "Movie 1GB";
     Stream.url := None;
     Stream.behaviorHints := None |}.

(** A candidate that carries a url and no identifier. *)
Definition direct : Stream.t :=
  {| Stream.infoHash := None;
     Stream.name := lit "Direct";
     Stream.title := lit "Direct 1GB";
     Stream.url := Some (lit "https://cdn/direct.mkv");
     Stream.behaviorHints := None |}.

(** A metadata object with two videos: stream 1 has a relative url, stream
    2 an absolute one. *)
Definition sampleMeta : ItemMeta.t :=
  {| ItemMeta.videos := Some [ {| Video.streams := Some [1%N] |};
                               {| Video.streams := Some [2%N] |} ];
     ItemMeta.url := {[ 1%N := lit "token/abc/0"; 2%N := lit "https://cdn/b.mkv" ]} |}.

(** Providers that answer with an empty catalog and with [sampleMeta], and
    an [enrichMeta] that adds nothing. *)
Definition sampleCatalog : ExternalCatalog :=
  {| getCatalog := fun _ _ _ _ => Fulfils [];
     getItemMeta := fun _ _ _ _ => Fulfils sampleMeta;
     enrichMeta := fun meta => Fulfils meta |}.

(** A second resolve request, for another file of the same torrent. *)
Definition otherParameters : Parameters.t :=
  {| Parameters.ip := Some (lit "10.0.0.1");
     Parameters.mochKey := Some (lit "realdebrid");
     Parameters.apiKey := Some sampleToken;
     Parameters.infoHash := Some (lit "abc");
     Parameters.fileIndex := Some 1%Z;
     Parameters.cachedEntryInfo := Some (lit "null");
     Parameters.host := sampleHost |}.

(** The string has no "_", the separator of the deduplication id. *)
Definition noUnderscore (s : jsstring) : bool :=
  forallb (fun c => negb (c =? 95)%N) s.

(** No field of the request before [fileIndex] holds the separator. *)
Definition underscoreFree (parameters : Parameters.t) : bool :=
  noUnderscore (interpolate (Parameters.ip parameters))
  && noUnderscore (interpolate (Parameters.mochKey parameters))
  && noUnderscore (interpolate (Parameters.apiKey parameters))
  && noUnderscore (interpolate (Parameters.infoHash parameters)).

(** The first request again, from another host and with other entry
    information: neither is part of the id. *)
Definition sameIdParameters : Parameters.t :=
  {| Parameters.ip := Some (lit "10.0.0.1");
     Parameters.mochKey := Some (lit "realdebrid");
     Parameters.apiKey := Some sampleToken;
     Parameters.infoHash := Some (lit "abc");
     Parameters.fileIndex := Some 0%Z;
     Parameters.cachedEntryInfo := Some (lit "cached");
     Parameters.host := Some (lit "https://other") |}.

(** How many times the videos of [meta] list the stream object [ref]. *)
Definition listed (meta : ItemMeta.t) (ref : N) : nat :=
  match ItemMeta.videos meta with
  | Some videos =>
      length (List.filter (fun stream => bool_decide (stream = Some ref))
                (allStreams videos))
  | None => 0
  end.

(** The url that line 139 assigns in place of [url]. *)
Definition resolveUrl (config : Config.t) (moch : Moch.t) (url : jsstring)
    : jsstring :=
  interpolate (Config.host config) ++ lit "/" ++ Moch.key moch ++ lit "/" ++ url.

(** A metadata object whose two videos share the stream object 1. *)
Definition sharedMeta : ItemMeta.t :=
  {| ItemMeta.videos := Some [ {| Video.streams := Some [1%N] |};
                               {| Video.streams := Some [1%N; 2%N] |} ];
     ItemMeta.url := {[ 1%N := lit "token/abc/0"; 2%N := lit "https://cdn/b.mkv" ]} |}.

(** * Properties *)

(** ** Objects and the registry *)

Lemma assoc_Some_elem {V : Type} (l : list (jsstring * V)) k v :
  assoc l k = Some v → (k, v) ∈ l.
Proof.
  induction l as [|[k' v'] l IH]; simpl; [done|].
  destruct (decide (k' = k)) as [->|Hne].
  - intros [= ->]. apply list_elem_of_here.
  - intros Hl. apply list_elem_of_further. auto.
Qed.

Lemma assoc_keys {V : Type} (l : list (jsstring * V)) k :
  k ∈ Object_keys l → is_Some (assoc l k).
Proof.
  unfold Object_keys. induction l as [|[k' v'] l IH]; simpl.
  - intros Hk. by apply elem_of_nil in Hk.
  - intros Hk. destruct (decide (k' = k)) as [->|Hne]; [by eexists|].
    apply elem_of_cons in Hk as [->|Hk]; [done|auto].
Qed.

Lemma assoc_Some_keys {V : Type} (l : list (jsstring * V)) k v :
  assoc l k = Some v → k ∈ Object_keys l.
Proof.
  intros Hk. apply assoc_Some_elem in Hk.
  unfold Object_keys. apply list_elem_of_fmap. by exists (k, v).
Qed.

(** Every descriptor is registered under its own [key]. *)
Lemma MochOptions_key k moch :
  assoc MochOptions k = Some moch → Moch.key moch = k.
Proof.
  intros Hk. apply assoc_Some_elem in Hk. unfold MochOptions in Hk.
  repeat (apply elem_of_cons in Hk as [[= -> ->]|Hk]; [reflexivity|]).
  by apply elem_of_nil in Hk.
Qed.

Lemma MochOptions_self k moch :
  assoc MochOptions k = Some moch → assoc MochOptions (Moch.key moch) = Some moch.
Proof. intros Hk. by rewrite (MochOptions_key _ _ Hk). Qed.

(** Distinct descriptors use distinct provider modules. *)
Lemma MochOptions_instance k1 k2 moch1 moch2 :
  assoc MochOptions k1 = Some moch1 → assoc MochOptions k2 = Some moch2 →
  Moch.instance moch1 = Moch.instance moch2 → moch1 = moch2.
Proof.
  intros H1 H2. apply assoc_Some_elem in H1, H2. unfold MochOptions in H1, H2.
  repeat (apply elem_of_cons in H1 as [[= -> ->]|H1]);
    try (by apply elem_of_nil in H1);
    repeat (apply elem_of_cons in H2 as [[= -> ->]|H2]);
    try (by apply elem_of_nil in H2);
    simpl; intros Hi; first [reflexivity | discriminate Hi].
Qed.

Lemma MochOptions_keys_truthy k :
  k ∈ Object_keys MochOptions → truthy (Some k) = true.
Proof.
  unfold Object_keys, MochOptions. simpl. intros Hk.
  repeat (apply elem_of_cons in Hk as [->|Hk]; [reflexivity|]).
  by apply elem_of_nil in Hk.
Qed.

Lemma registeredMochs_registered config moch :
  moch ∈ registeredMochs config →
  assoc MochOptions (Moch.key moch) = Some moch
  ∧ is_Some (assoc (Config.props config) (Moch.key moch)).
Proof.
  unfold registeredMochs. intros Hm.
  apply list_elem_of_omap in Hm as (k & Hk & Hreg).
  rewrite (MochOptions_key _ _ Hreg). split; [done|]. by apply assoc_keys.
Qed.

(** No key of the registry is the name of a member of [Object.prototype]:
    under such a name [MochOptions] holds the inherited member. *)
Lemma MochOptions_inherited k :
  array_includes Object_prototype k = true → assoc MochOptions k = None.
Proof.
  unfold array_includes, Object_prototype. intros Hk.
  apply bool_decide_eq_true in Hk.
  repeat (apply elem_of_cons in Hk as [->|Hk]; [reflexivity|]).
  by apply elem_of_nil in Hk.
Qed.

Lemma MochOptions_get_Own k moch :
  assoc MochOptions k = Some moch → MochOptions_get k = Some (Own moch).
Proof. intros Hk. unfold MochOptions_get, lookupMember. by rewrite Hk. Qed.

Lemma MochOptions_get_Inherited k :
  array_includes Object_prototype k = true → MochOptions_get k = Some Inherited.
Proof.
  intros Hk. unfold MochOptions_get, lookupMember.
  by rewrite (MochOptions_inherited _ Hk), Hk.
Qed.

Lemma MochOptions_get_None k :
  assoc MochOptions k = None → array_includes Object_prototype k = false →
  MochOptions_get k = None.
Proof. intros Hk Hi. unfold MochOptions_get, lookupMember. by rewrite Hk, Hi. Qed.

(** Without a key that names an inherited member, the array of lines 75-77
    holds the descriptors of the providers considered. *)
Lemma configuredMochs_Own config :
  inheritedKeys config = [] → configuredMochs config = Own <$> registeredMochs config.
Proof.
  unfold inheritedKeys, configuredMochs, registeredMochs.
  induction (Object_keys (Config.props config)) as [|k l IH]; [done|].
  cbn [List.filter omap list_omap].
  destruct (array_includes Object_prototype k) eqn:Hk; [discriminate|].
  intros Hl. destruct (assoc MochOptions k) as [moch|] eqn:Hreg.
  - rewrite (MochOptions_get_Own _ _ Hreg). cbn. by rewrite IH.
  - rewrite (MochOptions_get_None _ Hreg Hk). by apply IH.
Qed.

(** With such a key, it holds an inherited member. *)
Lemma configuredMochs_Inherited config :
  inheritedKeys config ≠ [] → Inherited ∈ configuredMochs config.
Proof.
  unfold inheritedKeys, configuredMochs.
  induction (Object_keys (Config.props config)) as [|k l IH]; [done|].
  cbn [List.filter omap list_omap].
  destruct (array_includes Object_prototype k) eqn:Hk.
  - intros _. rewrite (MochOptions_get_Inherited _ Hk). apply list_elem_of_here.
  - intros Hl. destruct (MochOptions_get k); [apply list_elem_of_further|]; by apply IH.
Qed.

Lemma configuredMochs_elem config moch :
  Own moch ∈ configuredMochs config ↔ moch ∈ registeredMochs config.
Proof.
  unfold configuredMochs, registeredMochs. rewrite !list_elem_of_omap.
  split; intros (k & Hk & Hget); exists k; (split; [done|]).
  - unfold MochOptions_get, lookupMember in Hget.
    destruct (assoc MochOptions k) as [m|]; [by injection Hget as ->|].
    by destruct (array_includes Object_prototype k).
  - by apply MochOptions_get_Own.
Qed.

(** ** Sequencing *)

Lemma mapM_Completion_Returns {A B : Type} (f : A → Completion B) (g : A → B) l :
  Forall (fun x => f x = Returns (g x)) l → mapM f l = Returns (g <$> l).
Proof.
  induction 1 as [|x l Hx _ IH]; [reflexivity|].
  cbn [mapM]. rewrite Hx, IH. reflexivity.
Qed.

Lemma mapM_Traced_Returns {A B : Type} (f : A → Traced B) (g : A → B) l :
  Forall (fun x => (f x).2 = Returns (g x)) l →
  mapM f l = (mjoin ((fun x => (f x).1) <$> l), Returns (g <$> l)).
Proof.
  induction 1 as [|x l Hx _ IH]; [reflexivity|].
  cbn [mapM fmap list_fmap mjoin list_join]. rewrite IH.
  destruct (f x) as [tr c]. simpl in Hx. subst c.
  simpl. by rewrite app_nil_r.
Qed.

(** One step of a traced sequence. *)
Lemma mapM_Traced_cons {A B : Type} (f : A → Traced B) x l :
  mapM f (x :: l)
  = match (f x).2 with
    | Returns y =>
        ((f x).1 ++ (mapM f l).1,
         match (mapM f l).2 with
         | Returns ys => Returns (y :: ys)
         | Throws msg => Throws msg
         end)
    | Throws msg => ((f x).1, Throws msg)
    end.
Proof.
  cbn [mapM]. destruct (f x) as [tr [y|msg]]; [|reflexivity].
  destruct (mapM f l) as [tr' [ys|msg]]; cbn; by rewrite ?app_nil_r.
Qed.

(** Every event of a traced sequence is an event of one of its steps, and
    the trace holds all the events of that step. *)
Lemma mapM_Traced_events {A B : Type} (f : A → Traced B) l (e : Event) :
  e ∈ (mapM f l).1 →
  ∃ x, x ∈ l ∧ e ∈ (f x).1 ∧ ∀ e', e' ∈ (f x).1 → e' ∈ (mapM f l).1.
Proof.
  induction l as [|x l IH]; [intros He; by apply elem_of_nil in He|].
  rewrite mapM_Traced_cons. destruct (f x).2 as [y|msg]; cbn [fst].
  - intros He. apply elem_of_app in He as [He|He].
    + exists x. split; [apply list_elem_of_here|]. split; [done|].
      intros e' He'. apply elem_of_app. by left.
    + destruct (IH He) as (x' & Hx' & He' & Hall). exists x'.
      split; [by apply list_elem_of_further|]. split; [done|].
      intros e' He''. apply elem_of_app. right. by apply Hall.
  - intros He. exists x. split; [apply list_elem_of_here|]. by split.
Qed.

(** The trace is the beginning of the trace of all the steps. *)
Lemma mapM_Traced_prefix {A B : Type} (f : A → Traced B) l :
  ∃ rest, mjoin ((fun x => (f x).1) <$> l) = (mapM f l).1 ++ rest.
Proof.
  induction l as [|x l [rest IH]]; [by exists []|].
  rewrite mapM_Traced_cons.
  change (mjoin ((fun x => (f x).1) <$> x :: l))
    with ((f x).1 ++ mjoin ((fun x => (f x).1) <$> l)).
  rewrite IH. destruct (f x).2 as [y|msg]; cbn [fst].
  - exists rest. by rewrite app_assoc.
  - by eexists.
Qed.

(** A traced sequence that returns has run every step, and one that throws
    has run a step that throws. *)
Lemma mapM_Traced_Forall2 {A B : Type} (f : A → Traced B) l ys :
  (mapM f l).2 = Returns ys → Forall2 (fun x y => (f x).2 = Returns y) l ys.
Proof.
  revert ys. induction l as [|x l IH]; intros ys.
  - intros [= <-]. constructor.
  - rewrite mapM_Traced_cons. destruct (f x).2 as [y|msg] eqn:Hx; [|discriminate].
    cbn [snd]. destruct (mapM f l).2 as [ys'|msg]; [|discriminate].
    intros [= <-]. constructor; [done|]. by apply IH.
Qed.

Lemma mapM_Traced_Throws_inv {A B : Type} (f : A → Traced B) l msg :
  (mapM f l).2 = Throws msg → ∃ x, x ∈ l ∧ (f x).2 = Throws msg.
Proof.
  induction l as [|x l IH]; [discriminate|].
  rewrite mapM_Traced_cons. destruct (f x).2 as [y|msg'] eqn:Hx; cbn [snd].
  - destruct (mapM f l).2 as [ys|msg']; [discriminate|].
    intros [= ->]. destruct IH as (x' & Hx' & Hf); [done|].
    exists x'. split; [by apply list_elem_of_further|done].
  - intros [= ->]. exists x. split; [apply list_elem_of_here|done].
Qed.

(** ** The fast path *)

Lemma hasMochConfigured_None `{External} config :
  (∀ moch, moch ∈ Object_keys MochOptions →
     truthy (config ≫= fun c => assoc (Config.props c) moch) = false) →
  hasMochConfigured config = None.
Proof.
  unfold hasMochConfigured. generalize (Object_keys MochOptions).
  intros l Hl. induction l as [|k l IH]; [reflexivity|].
  simpl. rewrite (Hl k) by apply list_elem_of_here.
  apply IH. intros k' Hk'. apply Hl. by apply list_elem_of_further.
Qed.

(** C3. If the candidate list is absent or empty, or no key of the registry
    has a truthy credential in the configuration (which may itself be
    absent), [applyMochs] returns its [streams] argument unchanged, and makes
    no provider call and no blacklist insertion. *)
Theorem applyMochs_identity `{External} TOKEN_BLACKLIST streams config :
  streams = None ∨ streams = Some []
  ∨ (∀ moch, moch ∈ Object_keys MochOptions →
       truthy (config ≫= fun c => assoc (Config.props c) moch) = false) →
  applyMochs TOKEN_BLACKLIST streams config = ([], Returns streams).
Proof.
  intros [->|[->|Hnone]]; [reflexivity..|].
  unfold applyMochs. rewrite (hasMochConfigured_None _ Hnone).
  simpl. by rewrite orb_true_r.
Qed.

Lemma applyMochs_identity_witness :
  @applyMochs (sampleExternal (fun _ => Rejects BadTokenError) Pending false)
    [] (Some [movie]) (Some (configOf [(lit "providers", lit "yts")]))
  = ([], Returns (Some [movie])).
Proof.
  apply applyMochs_identity. right. right. intros moch Hm.
  unfold Object_keys, MochOptions in Hm. simpl in Hm.
  repeat (apply elem_of_cons in Hm as [->|Hm]; [reflexivity|]).
  by apply elem_of_nil in Hm.
Defined.

(** ** Collecting the provider results *)

Lemma omap_id_fmap_if {A B : Type} (c : A → bool) (p : A → B) (l : list A) :
  omap id ((fun x => if c x then Some (p x) else None) <$> l)
  = p <$> List.filter c l.
Proof.
  induction l as [|x l IH]; [reflexivity|].
  cbn [fmap list_fmap omap list_omap List.filter].
  rewrite IH. by destruct (c x).
Qed.

Lemma mapM_Completion_fmap {A B C : Type} (f : B → Completion C) (g : A → B) l :
  mapM f (g <$> l) = mapM (f ∘ g) l.
Proof.
  induction l as [|x l IH]; [reflexivity|].
  cbn [fmap list_fmap mapM]. fold (g <$> l). by rewrite IH.
Qed.

Lemma omap_fmap {A B C : Type} (f : B → option C) (g : A → B) (l : list A) :
  omap f (g <$> l) = omap (f ∘ g) l.
Proof.
  induction l as [|x l IH]; [reflexivity|].
  cbn [fmap list_fmap omap list_omap]. fold (g <$> l). by rewrite IH.
Qed.

Section Collecting.
Context `{External}.
Implicit Types (bl : list jsstring) (ss : list Stream.t).
Implicit Types (cfg : Config.t) (moch : Moch.t).

Lemma callMoch_Returns bl ss cfg moch :
  is_Some (assoc (Config.props cfg) (Moch.key moch)) →
  (callMoch bl ss cfg moch).2 = Returns (mochResult bl ss cfg moch)
  ∧ MochResult.moch (mochResult bl ss cfg moch) = moch.
Proof.
  intros [token Ht]. unfold mochResult, callMoch. rewrite Ht.
  destruct (isInvalidToken bl token (Moch.key moch)); [done|].
  destruct (getCachedStreams _ _ _) as [ms|e]; [done|].
  destruct (decide (e = BadTokenError)); done.
Qed.


(** A provider is called only with a credential that passes the guard. *)
Lemma callMoch_calls bl ss cfg moch i :
  i ∈ providerCalls (callMoch bl ss cfg moch).1 →
  i = Moch.instance moch
  ∧ ∃ token, assoc (Config.props cfg) (Moch.key moch) = Some token
             ∧ isInvalidToken bl token (Moch.key moch) = false.
Proof.
  unfold callMoch, providerCalls.
  destruct (assoc (Config.props cfg) (Moch.key moch)) as [token|] eqn:Ht;
    [|intros Hi; by apply elem_of_nil in Hi].
  destruct (isInvalidToken bl token (Moch.key moch)) eqn:Hinv;
    [intros Hi; by apply elem_of_nil in Hi|].
  intros Hi. apply list_elem_of_omap in Hi as (e & He & Hcall).
  split; [|by exists token].
  destruct (getCachedStreams _ _ _) as [ms|err]; simpl in He.
  - apply list_elem_of_singleton in He as ->. by injection Hcall.
  - destruct (decide (err = BadTokenError)); simpl in He.
    + apply elem_of_cons in He as [->|He]; [by injection Hcall|].
      apply list_elem_of_singleton in He as ->. discriminate Hcall.
    + apply list_elem_of_singleton in He as ->. by injection Hcall.
Qed.

(** The step for a descriptor has the events and the outcome of
    [callMoch]; the step for an inherited member has no event. *)
Lemma callMember_Own bl ss cfg moch :
  (callMember bl ss cfg (Own moch)).1 = (callMoch bl ss cfg moch).1
  ∧ (callMember bl ss cfg (Own moch)).2
    = match (callMoch bl ss cfg moch).2 with
      | Returns result => Returns (FromMoch result)
      | Throws msg => Throws msg
      end.
Proof.
  cbn [callMember]. destruct (callMoch bl ss cfg moch) as [tr [result|msg]];
    cbn; by rewrite ?app_nil_r.
Qed.

Lemma callInherited_cases bl cfg :
  callInherited bl cfg = ([], Returns FromInherited)
  ∨ callInherited bl cfg = ([], Throws TypeError).
Proof.
  unfold callInherited. destruct (assoc _ _) as [token|]; [|by right].
  destruct (isInvalidToken _ _ _); [by left|by right].
Qed.

(** Past the fast path, [applyMochs] runs the steps of the array of lines
    75-77 and processes what they return. *)
Lemma applyMochs_steps bl ss cfg :
  ss ≠ [] → truthy (hasMochConfigured (Some cfg)) = true →
  applyMochs bl (Some ss) (Some cfg)
  = ((mapM (callMember bl ss cfg) (configuredMochs cfg)).1,
     match (mapM (callMember bl ss cfg) (configuredMochs cfg)).2 with
     | Returns results =>
         match processMochResults ss cfg results with
         | Returns out => Returns (Some out)
         | Throws msg => Throws msg
         end
     | Throws msg => Throws msg
     end).
Proof.
  intros Hss Hcfg. unfold applyMochs. rewrite Hcfg.
  destruct ss as [|s ss]; [done|]. cbn [noLength negb orb].
  destruct (mapM _ _) as [tr [results|msg]]; [|reflexivity].
  cbn. destruct (processMochResults _ _ _); cbn; by rewrite ?app_nil_r.
Qed.

(** When no key of the configuration names an inherited member, these are
    the results collected for the providers considered, in
    [Object.keys(config)] order. *)
Lemma applyMochs_slow bl ss cfg :
  ss ≠ [] → truthy (hasMochConfigured (Some cfg)) = true →
  inheritedKeys cfg = [] →
  applyMochs bl (Some ss) (Some cfg)
  = (mjoin ((fun moch => (callMoch bl ss cfg moch).1) <$> registeredMochs cfg),
     match processMochResults ss cfg
             (FromMoch <$> (mochResult bl ss cfg <$> registeredMochs cfg)) with
     | Returns out => Returns (Some out)
     | Throws msg => Throws msg
     end).
Proof.
  intros Hss Hcfg Hown. rewrite applyMochs_steps by done.
  rewrite (configuredMochs_Own _ Hown).
  rewrite (mapM_Traced_Returns _
    (fun m => match m with
              | Own moch => FromMoch (mochResult bl ss cfg moch)
              | Inherited => FromInherited
              end)).
  - cbn [fst snd]. rewrite <- !list_fmap_compose. f_equal.
    f_equal. apply list_fmap_ext. intros i moch _.
    exact (proj1 (callMember_Own bl ss cfg moch)).
  - apply Forall_forall. intros m Hm.
    apply list_elem_of_fmap in Hm as (moch & -> & Hm).
    apply registeredMochs_registered in Hm as [_ Hm].
    destruct (callMember_Own bl ss cfg moch) as [_ ->].
    by destruct (callMoch_Returns bl ss cfg moch Hm) as [-> _].
Qed.

(** [processMochResults] on results of descriptors of the registry. *)
Lemma processMochResults_FromMoch ss cfg (results : list MochResult.t) :
  processMochResults ss cfg (FromMoch <$> results)
  = (errorResponses ← mapM (fun result =>
         errorStreamResponse (Moch.key (MochResult.moch result))
                             (MochResult.error result) cfg) results;
     let errorResults := omap id errorResponses in
     if (0 <? length errorResults)%nat then mret errorResults
     else
       let mochResults := omap lookupOf results in
       let cached := cachedStreams ss mochResults cfg in
       resultStreams ← (if excludeDownloadLinks cfg then mret cached
                        else populateDownloadLinks cached mochResults cfg);
       mret (if includeTorrentLinks cfg then resultStreams
             else List.filter (fun stream => truthy (Stream.url stream))
                    resultStreams)).
Proof. unfold processMochResults. by rewrite mapM_Completion_fmap, omap_fmap. Qed.

Lemma errorStreamResponse_collected bl ss cfg moch :
  moch ∈ registeredMochs cfg →
  errorStreamResponse (Moch.key (MochResult.moch (mochResult bl ss cfg moch)))
    (MochResult.error (mochResult bl ss cfg moch)) cfg
  = Returns (if classified (mochError bl ss cfg moch)
             then Some (placeholder cfg moch (mochError bl ss cfg moch))
             else None).
Proof.
  intros Hm. apply registeredMochs_registered in Hm as [Hreg Htok].
  destruct (callMoch_Returns bl ss cfg moch Htok) as [_ ->].
  unfold errorStreamResponse, mochError.
  destruct (MochResult.error _) as [[| |code]|]; by rewrite ?Hreg.
Qed.

(** What [processMochResults] does with the collected results, in terms
    of the failing providers. *)
Lemma processMochResults_collected bl ss cfg :
  processMochResults ss cfg
    (FromMoch <$> (mochResult bl ss cfg <$> registeredMochs cfg))
  = (let errorResults :=
       (fun moch => placeholder cfg moch (mochError bl ss cfg moch))
       <$> failingMochs bl ss cfg in
     if (0 <? length errorResults)%nat then Returns errorResults
     else
       let mochResults :=
         omap lookupOf (mochResult bl ss cfg <$> registeredMochs cfg) in
       let cached := cachedStreams ss mochResults cfg in
       resultStreams ← (if excludeDownloadLinks cfg then mret cached
                        else populateDownloadLinks cached mochResults cfg);
       mret (if includeTorrentLinks cfg then resultStreams
             else List.filter (fun stream => truthy (Stream.url stream))
                    resultStreams)).
Proof.
  rewrite processMochResults_FromMoch.
  rewrite (mapM_Completion_Returns _
    (fun r => if classified (MochResult.error r)
              then Some (placeholder cfg (MochResult.moch r) (MochResult.error r))
              else None)).
  - cbn. rewrite omap_id_fmap_if.
    assert (List.filter (fun r => classified (MochResult.error r))
              (mochResult bl ss cfg <$> registeredMochs cfg)
            = mochResult bl ss cfg <$> failingMochs bl ss cfg) as ->.
    { unfold failingMochs, mochError.
      induction (registeredMochs cfg) as [|m l IH]; [reflexivity|].
      cbn [fmap list_fmap List.filter].
      destruct (classified _); cbn [fmap list_fmap]; by rewrite IH. }
    rewrite <- list_fmap_compose.
    assert ((fun r => placeholder cfg (MochResult.moch r) (MochResult.error r))
              ∘ mochResult bl ss cfg <$> failingMochs bl ss cfg
            = (fun moch => placeholder cfg moch (mochError bl ss cfg moch))
              <$> failingMochs bl ss cfg) as ->; [|reflexivity].
    apply list_fmap_ext. intros i m Hm. simpl.
    assert (m ∈ registeredMochs cfg) as Hc.
    { apply list_elem_of_lookup_2 in Hm. unfold failingMochs in Hm.
      apply list_elem_of_In, filter_In in Hm as [Hm _].
      by apply list_elem_of_In. }
    apply registeredMochs_registered in Hc as [_ Htok].
    by destruct (callMoch_Returns bl ss cfg m Htok) as [_ ->].
  - apply Forall_forall. intros r Hr.
    apply list_elem_of_fmap in Hr as (m & -> & Hm).
    rewrite (errorStreamResponse_collected _ _ _ _ Hm).
    apply registeredMochs_registered in Hm as [_ Htok].
    unfold mochError.
    by destruct (callMoch_Returns bl ss cfg m Htok) as [_ ->].
Qed.

(** If some result carries a classified error, the outcome is the list of
    placeholders of the failing providers. *)
Lemma processMochResults_failing bl ss cfg :
  failingMochs bl ss cfg ≠ [] →
  processMochResults ss cfg
    (FromMoch <$> (mochResult bl ss cfg <$> registeredMochs cfg))
  = Returns ((fun moch => placeholder cfg moch (mochError bl ss cfg moch))
             <$> failingMochs bl ss cfg).
Proof.
  intros Hfail. rewrite processMochResults_collected.
  by destruct (failingMochs bl ss cfg).
Qed.

(** Otherwise the outcome is built from the merged candidates. *)
Lemma processMochResults_merging bl ss cfg :
  failingMochs bl ss cfg = [] →
  processMochResults ss cfg
    (FromMoch <$> (mochResult bl ss cfg <$> registeredMochs cfg))
  = (let mochResults :=
       omap lookupOf (mochResult bl ss cfg <$> registeredMochs cfg) in
     let cached := cachedStreams ss mochResults cfg in
     resultStreams ← (if excludeDownloadLinks cfg then mret cached
                      else populateDownloadLinks cached mochResults cfg);
     mret (if includeTorrentLinks cfg then resultStreams
           else List.filter (fun stream => truthy (Stream.url stream))
                  resultStreams)).
Proof. intros Hfail. rewrite processMochResults_collected. by rewrite Hfail. Qed.

End Collecting.

(** ** Classified errors *)

Lemma mapM_Completion_app {A B : Type} (f : A → Completion B) l1 l2 :
  mapM f (l1 ++ l2) = (r1 ← mapM f l1; r2 ← mapM f l2; mret (r1 ++ r2)).
Proof.
  induction l1 as [|x l1 IH]; cbn [app mapM].
  - by destruct (mapM f l2).
  - rewrite IH. destruct (f x); [|done].
    destruct (mapM f l1); [|done]. by destruct (mapM f l2).
Qed.

Lemma mapM_Completion_Throws_inv {A B : Type} (f : A → Completion B) l msg :
  mapM f l = Throws msg → ∃ x, x ∈ l ∧ f x = Throws msg.
Proof.
  induction l as [|x l IH]; cbn [mapM]; [discriminate|].
  destruct (f x) as [y|msg'] eqn:Hx; cbn.
  - destruct (mapM f l) as [ys|msg'] eqn:Hl; cbn; [discriminate|].
    intros [= ->]. destruct IH as (x' & Hx' & Hf); [done|].
    exists x'. split; [by apply list_elem_of_further|done].
  - intros [= ->]. exists x. split; [apply list_elem_of_here|done].
Qed.

Lemma mapM_Completion_Throws {A B : Type} (f : A → Completion B) l x msg :
  x ∈ l → f x = Throws msg →
  (∀ y msg', y ∈ l → f y = Throws msg' → msg' = msg) →
  mapM f l = Throws msg.
Proof.
  intros Hx Hf. induction Hx as [x l|x y l Hx IH]; intros Hall; cbn [mapM].
  - by rewrite Hf.
  - rewrite IH; [|done|].
    + destruct (f y) as [b|msg'] eqn:Hy; cbn; [done|].
      f_equal. eapply Hall; [apply list_elem_of_here|done].
    + intros z m Hz. apply Hall. by apply list_elem_of_further.
Qed.

Section Classified.
Context `{External}.
Implicit Types (bl : list jsstring) (ss : list Stream.t).
Implicit Types (cfg : Config.t) (moch : Moch.t).

Lemma applyMochs_failing bl ss cfg :
  ss ≠ [] → truthy (hasMochConfigured (Some cfg)) = true →
  inheritedKeys cfg = [] →
  failingMochs bl ss cfg ≠ [] →
  (applyMochs bl (Some ss) (Some cfg)).2
  = Returns (Some ((fun moch => placeholder cfg moch (mochError bl ss cfg moch))
                   <$> failingMochs bl ss cfg)).
Proof.
  intros Hss Hcfg Hown Hfail. rewrite applyMochs_slow by done.
  cbn [snd]. by rewrite processMochResults_failing.
Qed.

Lemma errorStreamResponse_Throws mochKey error cfg msg :
  errorStreamResponse mochKey error cfg = Throws msg → msg = TypeError.
Proof.
  unfold errorStreamResponse.
  destruct error as [[| |code]|]; try discriminate;
    (destruct (assoc MochOptions mochKey); [discriminate|by intros [= <-]]).
Qed.

(** The classifier throws on the result collected for an inherited member:
    [MochOptions] has no property "undefined". *)
Lemma processMochResults_inherited ss cfg results :
  FromInherited ∈ results → processMochResults ss cfg results = Throws TypeError.
Proof.
  intros Hin. unfold processMochResults.
  rewrite (mapM_Completion_Throws _ _ FromInherited TypeError); [done|done|done|].
  intros r msg _. apply errorStreamResponse_Throws.
Qed.

Lemma callMember_Throws bl ss cfg m msg :
  (callMember bl ss cfg m).2 = Throws msg → msg = TypeError.
Proof.
  destruct m as [moch|].
  - destruct (callMember_Own bl ss cfg moch) as [_ ->].
    unfold callMoch. destruct (assoc _ _) as [token|]; [|by intros [= <-]].
    destruct (isInvalidToken _ _ _); [discriminate|].
    destruct (getCachedStreams _ _ _) as [ms|err]; [discriminate|].
    by destruct (decide (err = BadTokenError)).
  - cbn [callMember]. by destruct (callInherited_cases bl cfg) as [-> | ->]; intros [= <-].
Qed.

(** Past the fast path, a key of the configuration that names a member of
    [Object.prototype] makes the aggregation throw: in the step for that
    member, or when its result is classified. *)
Lemma applyMochs_inherited_throws bl ss cfg :
  ss ≠ [] → truthy (hasMochConfigured (Some cfg)) = true →
  inheritedKeys cfg ≠ [] →
  (applyMochs bl (Some ss) (Some cfg)).2 = Throws TypeError.
Proof.
  intros Hss Hcfg Hinh. rewrite applyMochs_steps by done. cbn [snd].
  apply configuredMochs_Inherited in Hinh.
  destruct (mapM (callMember bl ss cfg) (configuredMochs cfg)).2
    as [results|msg] eqn:Hsteps.
  - apply mapM_Traced_Forall2 in Hsteps.
    apply list_elem_of_lookup in Hinh as [i Hi].
    destruct (Forall2_lookup_l _ _ _ _ _ Hsteps Hi) as (r & Hr & Hstep).
    cbn [callMember] in Hstep.
    destruct (callInherited_cases bl cfg) as [Hc|Hc]; rewrite Hc in Hstep;
      [|discriminate Hstep].
    injection Hstep as <-.
    rewrite processMochResults_inherited; [done|].
    by eapply list_elem_of_lookup_2.
  - apply mapM_Traced_Throws_inv in Hsteps as (m & _ & Hm).
    by apply callMember_Throws in Hm as ->.
Qed.

(** So an aggregation that returns past the fast path had no such key. *)
Lemma applyMochs_Returns_own bl ss cfg out :
  ss ≠ [] → truthy (hasMochConfigured (Some cfg)) = true →
  (applyMochs bl (Some ss) (Some cfg)).2 = Returns out →
  inheritedKeys cfg = [].
Proof.
  intros Hss Hcfg Hout. destruct (inheritedKeys cfg) as [|k l] eqn:Hinh; [done|].
  rewrite applyMochs_inherited_throws in Hout; [discriminate Hout|done..|].
  by rewrite Hinh.
Qed.

(** A credential that passes the guard is truthy, so the fast path is not
    taken. *)
Lemma hasMochConfigured_token bl cfg moch token :
  moch ∈ registeredMochs cfg →
  assoc (Config.props cfg) (Moch.key moch) = Some token →
  isInvalidToken bl token (Moch.key moch) = false →
  truthy (hasMochConfigured (Some cfg)) = true.
Proof.
  intros Hm Ht Hinv. apply registeredMochs_registered in Hm as [Hreg _].
  unfold hasMochConfigured.
  destruct (List.find _ _) as [k|] eqn:Hfind.
  - apply find_some in Hfind as [Hk _].
    apply MochOptions_keys_truthy. by apply list_elem_of_In.
  - apply find_none with (x := Moch.key moch) in Hfind.
    + simpl in Hfind. rewrite Ht in Hfind.
      unfold isInvalidToken in Hinv. apply orb_false_iff in Hinv as [Hlen _].
      destruct token; [discriminate Hlen|discriminate Hfind].
    + apply list_elem_of_In. by apply assoc_Some_keys in Hreg.
Qed.

Lemma processMochResults_other ss cfg results1 results2 moch code :
  processMochResults ss cfg
    (results1 ++ FromMoch {| MochResult.moch := moch; MochResult.mochStreams := None;
                             MochResult.error := Some (OtherError code) |} :: results2)
  = processMochResults ss cfg (results1 ++ results2).
Proof.
  unfold processMochResults. rewrite !mapM_Completion_app. cbn [mapM].
  destruct (mapM _ results1) as [r1|]; [|done]. cbn.
  destruct (mapM _ results2) as [r2|]; [|done]. cbn.
  by rewrite !omap_app.
Qed.

Lemma registeredMochs_NoDup cfg :
  NoDup (Object_keys (Config.props cfg)) → NoDup (registeredMochs cfg).
Proof.
  unfold registeredMochs.
  induction 1 as [|k l Hk Hnd IH]; cbn [omap list_omap]; [constructor|].
  destruct (assoc MochOptions k) as [m|] eqn:Hm; [|done].
  constructor; [|done]. intros Hin.
  apply list_elem_of_omap in Hin as (k' & Hk' & Hm').
  apply MochOptions_key in Hm, Hm'. congruence.
Qed.

(** A configuration has each key once, so each failing provider is listed
    once. *)
Lemma failingMochs_NoDup bl ss cfg :
  NoDup (Object_keys (Config.props cfg)) → NoDup (failingMochs bl ss cfg).
Proof.
  intros Hnd. apply registeredMochs_NoDup in Hnd. unfold failingMochs.
  induction Hnd as [|m l Hm Hnd IH]; cbn [List.filter]; [constructor|].
  destruct (classified _); [|done]. constructor; [|done].
  intros Hin. apply list_elem_of_In, filter_In in Hin as [Hin _].
  by apply list_elem_of_In in Hin.
Qed.

End Classified.

(** C2 at the failing input. RealDebrid is configured with a valid
    credential, its call is made and is rejected with [AccessDeniedError];
    the configuration has the further key "constructor". The filter of line
    76 finds the inherited [Object.prototype.constructor] under that key and
    keeps it; it has no [key], so the credential read for it is
    [undefined], and reading its [length] throws. [applyMochs] throws a
    [TypeError] instead of returning RealDebrid's placeholder, which it
    returns for the same configuration without that key. With the key
    before "realdebrid" it throws before RealDebrid is called. When the
    configuration has a key "undefined" as well, what that key holds is the
    credential read for the inherited member: too short, it is collected as
    an invalid token, RealDebrid is called, and the classifier throws on the
    result collected for the member. *)
Lemma applyMochs_inherited_key_throws :
  assoc MochOptions (lit "constructor") = None
  ∧ MochOptions_get (lit "constructor") = Some Inherited
  ∧ @getCachedStreams extRdDenied realdebrid [movie] sampleToken
    = Rejects AccessDeniedError
  ∧ @applyMochs extRdDenied [] (Some [movie]) (Some rdThenConstructor)
    = ([GetCachedStreams realdebrid sampleToken], Throws TypeError)
  ∧ @applyMochs extRdDenied [] (Some [movie]) (Some rdOnly)
    = ([GetCachedStreams realdebrid sampleToken],
       Returns (Some [ {| Stream.infoHash := None;
                          Stream.name := lit "Torrentio" ++ [10%N] ++ lit "RD error";
                          Stream.title := lit "Expired/invalid RealDebrid subscription!";
                          Stream.url :=
                            Some (lit "http://host/videos/failed_access_v2.mp4");
                          Stream.behaviorHints := None |} ]))
  ∧ @applyMochs extRdDenied [] (Some [movie])
      (Some (configOf [(lit "constructor", lit "x"); (lit "realdebrid", sampleToken)]))
    = ([], Throws TypeError)
  ∧ @applyMochs extRdDenied [] (Some [movie])
      (Some (configOf [(lit "undefined", lit "x"); (lit "constructor", lit "y");
                       (lit "realdebrid", sampleToken)]))
    = ([GetCachedStreams realdebrid sampleToken], Throws TypeError).
Proof. repeat split; vm_compute; reflexivity. Qed.

(** X21. For a configuration none of whose keys names a member of
    [Object.prototype] and a non-empty candidate list: when the
    [getCachedStreams] call of a provider is rejected with [BadTokenError]
    or [AccessDeniedError], [applyMochs] returns exactly the placeholders of
    the failing providers, one for each, in configuration order, and no
    other stream. A placeholder is named "Torrentio\n<shortName> error", is
    titled "Invalid <name> ApiKey/Token!" or, for [AccessDeniedError],
    "Expired/invalid <name> subscription!", and has the url
    "<host>/<FAILED_ACCESS>". A configuration whose keys are distinct lists
    no provider twice, and a result rejected with any other error changes
    nothing in what [processMochResults] returns. *)
Theorem applyMochs_classified_errors_only `{External} TOKEN_BLACKLIST streams
    config moch token error :
  streams ≠ [] →
  inheritedKeys config = [] →
  moch ∈ registeredMochs config →
  assoc (Config.props config) (Moch.key moch) = Some token →
  isInvalidToken TOKEN_BLACKLIST token (Moch.key moch) = false →
  getCachedStreams (Moch.instance moch) streams token = Rejects error →
  error = BadTokenError ∨ error = AccessDeniedError →
  moch ∈ failingMochs TOKEN_BLACKLIST streams config
  ∧ (applyMochs TOKEN_BLACKLIST (Some streams) (Some config)).2
    = Returns (Some (
        (fun failing =>
           {| Stream.infoHash := None;
              Stream.name :=
                lit "Torrentio" ++ [10%N] ++ Moch.shortName failing ++ lit " error";
              Stream.title :=
                match mochError TOKEN_BLACKLIST streams config failing with
                | Some AccessDeniedError =>
                    lit "Expired/invalid " ++ Moch.name failing ++ lit " subscription!"
                | _ => lit "Invalid " ++ Moch.name failing ++ lit " ApiKey/Token!"
                end;
              Stream.url :=
                Some (interpolate (Config.host config) ++ lit "/" ++ FAILED_ACCESS);
              Stream.behaviorHints := None |})
        <$> failingMochs TOKEN_BLACKLIST streams config))
  ∧ (NoDup (Object_keys (Config.props config)) →
     NoDup (failingMochs TOKEN_BLACKLIST streams config))
  ∧ (∀ results1 results2 moch' code,
       processMochResults streams config
         (results1
          ++ FromMoch {| MochResult.moch := moch'; MochResult.mochStreams := None;
                         MochResult.error := Some (OtherError code) |} :: results2)
       = processMochResults streams config (results1 ++ results2)).
Proof.
  intros Hss Hown Hm Ht Hinv Hrej Herr.
  assert (moch ∈ failingMochs TOKEN_BLACKLIST streams config) as Hfail.
  { unfold failingMochs. apply list_elem_of_In, filter_In.
    split; [by apply list_elem_of_In|].
    unfold mochError, mochResult, callMoch. rewrite Ht, Hinv, Hrej.
    destruct Herr as [-> | ->]; reflexivity. }
  split; [done|]. split; [|split].
  - rewrite applyMochs_failing; [|done| |done|].
    + do 2 f_equal. apply list_fmap_ext. intros i failing _.
      unfold placeholder, accessDeniedStream, badTokenStream.
      by destruct (mochError _ _ _ failing) as [[| |code]|].
    + by eapply hasMochConfigured_token.
    + intros Hnil. rewrite Hnil in Hfail. by apply elem_of_nil in Hfail.
  - apply failingMochs_NoDup.
  - intros. apply processMochResults_other.
Qed.

Lemma applyMochs_classified_errors_only_witness :
  (@applyMochs extRdDenied [] (Some [movie]) (Some rdThenPm)).2
  = Returns (Some [ {| Stream.infoHash := None;
                       Stream.name := lit "Torrentio" ++ [10%N] ++ lit "RD error";
                       Stream.title := lit "Expired/invalid RealDebrid subscription!";
                       Stream.url :=
                         Some (lit "http://host/videos/failed_access_v2.mp4");
                       Stream.behaviorHints := None |} ]).
Proof.
  refine (eq_trans
            (proj1 (proj2 (@applyMochs_classified_errors_only extRdDenied [] [movie]
                             rdThenPm RealDebrid sampleToken AccessDeniedError
                             _ _ _ _ _ _ _))) _).
  - discriminate.
  - reflexivity.
  - vm_compute. apply list_elem_of_here.
  - reflexivity.
  - reflexivity.
  - reflexivity.
  - right. reflexivity.
  - vm_compute. reflexivity.
Defined.

(** ** The credential guard *)


(** Whatever the path, no event of an aggregation is the call of a
    provider whose credential fails the guard. *)
Lemma applyMochs_guarded `{External} bl streams cfg mochKey moch token :
  assoc MochOptions mochKey = Some moch →
  assoc (Config.props cfg) mochKey = Some token →
  isInvalidToken bl token mochKey = true →
  Moch.instance moch ∉ providerCalls (applyMochs bl streams (Some cfg)).1.
Proof.
  intros Hreg Htok Hbad Hin.
  destruct streams as [[|s ss]|]; try (by apply elem_of_nil in Hin).
  destruct (truthy (hasMochConfigured (Some cfg))) eqn:Hcfg; cycle 1.
  { unfold applyMochs in Hin. rewrite Hcfg in Hin. by apply elem_of_nil in Hin. }
  rewrite applyMochs_steps in Hin by done. cbn [fst] in Hin.
  unfold providerCalls in Hin. apply list_elem_of_omap in Hin as (e & He & Hev).
  apply mapM_Traced_events in He as (m & Hm & He & _).
  destruct m as [moch'|]; cycle 1.
  { cbn [callMember] in He.
    destruct (callInherited_cases bl cfg) as [Hc|Hc]; rewrite Hc in He;
      by apply elem_of_nil in He. }
  destruct (callMember_Own bl (s :: ss) cfg moch') as [Htr _]. rewrite Htr in He.
  assert (Moch.instance moch ∈ providerCalls (callMoch bl (s :: ss) cfg moch').1)
    as Hi.
  { unfold providerCalls. apply list_elem_of_omap. by exists e. }
  apply callMoch_calls in Hi as (Hinst & token' & Htok' & Hvalid).
  apply configuredMochs_elem, registeredMochs_registered in Hm as [Hreg' _].
  pose proof (MochOptions_key _ _ Hreg) as Hkey. rewrite <- Hkey in Hreg, Htok, Hbad.
  pose proof (MochOptions_instance _ _ _ _ Hreg Hreg' Hinst) as <-.
  congruence.
Qed.



(** A blacklisted credential of sufficient length is rejected the same way,
    and only the other provider is called. *)
Example applyMochs_blacklisted :
  @applyMochs extAllCached [tokenKey sampleToken (lit "realdebrid")] (Some [movie])
    (Some rdThenPm)
  = ([GetCachedStreams premiumize sampleToken],
     Returns (Some [@badTokenStream extAllCached RealDebrid rdThenPm])).
Proof. vm_compute. reflexivity. Qed.

(** ** Merging cached links *)

(** Reading the map under an identifier gives its own entry, if it has one;
    a member of [Object.prototype] found instead is not marked cached. *)
Lemma mochStreams_get_own (mochStreams : MochStreams) k entry :
  mochStreams !! k = Some entry → mochStreams_get mochStreams k = Some entry.
Proof. intros Hk. unfold mochStreams_get, lookupMember. by rewrite Hk. Qed.

Lemma mochStreams_get_cases (mochStreams : MochStreams) k :
  (mochStreams_get mochStreams k = mochStreams !! k
   ∧ (mochStreams !! k = None → array_includes Object_prototype k = false))
  ∨ (mochStreams !! k = None ∧ array_includes Object_prototype k = true
     ∧ mochStreams_get mochStreams k = Some inheritedEntry).
Proof.
  unfold mochStreams_get, lookupMember.
  destruct (mochStreams !! k) as [entry|]; [by left|].
  destruct (array_includes Object_prototype k); [by right|by left].
Qed.

Lemma isCached_mochStreams_get (mochStreams : MochStreams) k :
  isCached (mochStreams_get mochStreams k) = isCached (mochStreams !! k).
Proof.
  destruct (mochStreams_get_cases mochStreams k) as [[-> _]|(-> & _ & ->)]; done.
Qed.

Section Merging.
Context `{External}.
Implicit Types (streams : list Stream.t) (stream : Stream.t).
Implicit Types (config : Config.t) (mochResult : MochLookup.t).

Lemma populateCachedLink_cached mochResult config stream entry :
  cachedEntryOf stream mochResult = Some entry →
  CachedEntry.cached entry = true →
  populateCachedLink mochResult config stream
  = cachedLink stream (MochLookup.moch mochResult) entry config.
Proof. intros He Hc. unfold populateCachedLink. by rewrite He, Hc. Qed.

Lemma populateCachedLink_uncached mochResult config stream :
  reportsCached stream mochResult = false →
  populateCachedLink mochResult config stream = stream.
Proof.
  unfold reportsCached, populateCachedLink, isCached.
  destruct (cachedEntryOf stream mochResult) as [e|]; [|done]. by intros ->.
Qed.

(** An entry without identifier is reported cached by no provider. *)
Lemma reportsCached_no_infoHash mochResult stream :
  truthy (Stream.infoHash stream) = false →
  reportsCached stream mochResult = false.
Proof. intros Hh. unfold reportsCached, cachedEntryOf. by rewrite Hh. Qed.

Lemma fold_populateCachedLink_fixed config stream mochResults :
  truthy (Stream.infoHash stream) = false →
  fold_left (fun s r => populateCachedLink r config s) mochResults stream = stream.
Proof.
  intros Hh. induction mochResults as [|r rs IH]; [reflexivity|].
  cbn [fold_left]. rewrite populateCachedLink_uncached; [done|].
  by apply reportsCached_no_infoHash.
Qed.

(** Folding the providers over one candidate: the first provider that
    reports it cached rewrites it, and no later provider touches it. *)
Lemma fold_populateCachedLink_first config mochResults stream :
  fold_left (fun s r => populateCachedLink r config s) mochResults stream
  = match List.find (reportsCached stream) mochResults with
    | Some r => populateCachedLink r config stream
    | None => stream
    end.
Proof.
  revert stream. induction mochResults as [|r rs IH]; intros stream; [reflexivity|].
  cbn [fold_left List.find].
  destruct (reportsCached stream r) eqn:Hr.
  - unfold reportsCached, isCached in Hr.
    destruct (cachedEntryOf stream r) as [e|] eqn:He; [|discriminate Hr].
    rewrite (populateCachedLink_cached _ _ _ _ He Hr).
    by apply fold_populateCachedLink_fixed.
  - rewrite (populateCachedLink_uncached _ _ _ Hr). apply IH.
Qed.

Lemma cachedStreams_fmap streams mochResults config :
  cachedStreams streams mochResults config
  = (fun stream =>
       fold_left (fun s r => populateCachedLink r config s) mochResults stream)
    <$> streams.
Proof.
  unfold cachedStreams. revert streams.
  induction mochResults as [|r rs IH]; intros streams; cbn [fold_left].
  - by rewrite list_fmap_id.
  - rewrite IH. unfold populateCachedLinks. by rewrite <- list_fmap_compose.
Qed.

Lemma cachedStreams_lookup streams mochResults config i stream :
  streams !! i = Some stream →
  cachedStreams streams mochResults config !! i
  = Some match List.find (reportsCached stream) mochResults with
         | Some r => populateCachedLink r config stream
         | None => stream
         end.
Proof.
  intros Hi. rewrite cachedStreams_fmap, list_lookup_fmap, Hi. cbn.
  by rewrite fold_populateCachedLink_first.
Qed.

(** A rewritten entry carries a url, so the final filter keeps it. *)
Lemma cachedLink_url stream moch entry config :
  truthy (Stream.url (cachedLink stream moch entry config)) = true.
Proof. cbn. by destruct (interpolate (Config.host config)). Qed.

(** Merging keeps every title, hence the seeded candidates' count. *)
Lemma populateCachedLink_title mochResult config stream :
  Stream.title (populateCachedLink mochResult config stream) = Stream.title stream.
Proof.
  unfold populateCachedLink.
  destruct (cachedEntryOf stream mochResult) as [e|]; [|done].
  by destruct (CachedEntry.cached e).
Qed.

Lemma seededStreams_cachedStreams streams mochResults config :
  length (seededStreams (cachedStreams streams mochResults config))
  = length (seededStreams streams).
Proof.
  unfold cachedStreams. revert streams.
  induction mochResults as [|r rs IH]; intros streams; cbn [fold_left]; [done|].
  rewrite IH. unfold seededStreams, populateCachedLinks.
  induction streams as [|s ss IHs]; [done|].
  cbn [fmap list_fmap List.filter]. rewrite populateCachedLink_title.
  destruct (negb _); cbn [length]; by rewrite IHs.
Qed.

(** [populateDownloadLinks] only appends. *)
Lemma populateDownloadLinks_prefix streams mochResults config resultStreams :
  populateDownloadLinks streams mochResults config = Returns resultStreams →
  ∃ pushed, resultStreams = streams ++ pushed.
Proof.
  unfold populateDownloadLinks. destruct (mapM _ _) as [pushed|]; [|discriminate].
  intros [= <-]. by eexists.
Qed.

(** The successful lookups keep the order of the configured providers. *)
Lemma lookups_sublist bl ss config :
  sublist
    (MochLookup.moch <$> omap lookupOf (mochResult bl ss config <$> registeredMochs config))
    (registeredMochs config).
Proof.
  assert (Forall (fun moch =>
            MochResult.moch (mochResult bl ss config moch) = moch)
            (registeredMochs config)) as Hall.
  { apply Forall_forall. intros m Hm.
    apply registeredMochs_registered in Hm as [_ Htok].
    by destruct (callMoch_Returns bl ss config m Htok). }
  induction Hall as [|m l Hm _ IH]; [constructor|].
  cbn [fmap list_fmap omap list_omap]. unfold lookupOf at 1.
  destruct (MochResult.mochStreams (mochResult bl ss config m)); cbn.
  - rewrite Hm. by constructor.
  - by constructor.
Qed.

End Merging.

(** C4. [populateCachedLinks] for one successful provider: a candidate whose
    identifier is present (truthy), in the provider's map and marked cached
    is replaced, at its position, by the entry named
    "[<shortName>+] <name>" whose url is
    "<host>/<key>/<entry url>/<filename>", with [title] and [behaviorHints]
    kept; a candidate without identifier, without entry in the map or with
    an entry not marked cached stays as it is; the list keeps its length. *)
Theorem populateCachedLinks_rebrands `{External} streams mochResult config i stream :
  streams !! i = Some stream →
  (∀ hash entry,
     Stream.infoHash stream = Some hash → hash ≠ [] →
     MochLookup.mochStreams mochResult !! hash = Some entry →
     CachedEntry.cached entry = true →
     populateCachedLinks streams mochResult config !! i
     = Some {| Stream.infoHash := None;
               Stream.name :=
                 lit "[" ++ Moch.shortName (MochLookup.moch mochResult)
                 ++ lit "+] " ++ Stream.name stream;
               Stream.title := Stream.title stream;
               Stream.url :=
                 Some (interpolate (Config.host config) ++ lit "/"
                       ++ Moch.key (MochLookup.moch mochResult) ++ lit "/"
                       ++ interpolate (CachedEntry.url entry) ++ lit "/"
                       ++ streamFilename stream);
               Stream.behaviorHints := Stream.behaviorHints stream |})
  ∧ (truthy (Stream.infoHash stream) = false
     ∨ MochLookup.mochStreams mochResult !! interpolate (Stream.infoHash stream) = None
     ∨ (∃ entry,
          MochLookup.mochStreams mochResult !! interpolate (Stream.infoHash stream)
          = Some entry ∧ CachedEntry.cached entry = false) →
     populateCachedLinks streams mochResult config !! i = Some stream)
  ∧ length (populateCachedLinks streams mochResult config) = length streams.
Proof.
  intros Hi. unfold populateCachedLinks. rewrite list_lookup_fmap, Hi. cbn.
  split; [|split].
  - intros hash entry Hh Hne He Hc. f_equal.
    apply populateCachedLink_cached; [|done].
    unfold cachedEntryOf. rewrite Hh. destruct hash; [done|].
    by apply mochStreams_get_own.
  - intros Hcase. f_equal. apply populateCachedLink_uncached.
    unfold reportsCached, cachedEntryOf.
    destruct (truthy (Stream.infoHash stream)); [|done].
    rewrite isCached_mochStreams_get.
    destruct Hcase as [Hf|[Hn|(entry & He & Hc)]]; [done|by rewrite Hn|].
    by rewrite He.
  - apply length_fmap.
Qed.

Lemma populateCachedLinks_rebrands_witness :
  @populateCachedLinks extAllCached [movie] (rdLookup true) rdThenPm !! 0%nat
  = Some {| Stream.infoHash := None;
            Stream.name := lit "[RD+] Movie";
            Stream.title := Stream.title movie;
            Stream.url := Some (lit "http://host/realdebrid/rd-url/Movie.mkv");
            Stream.behaviorHints := Some 7%N |}.
Proof.
  refine (proj1 (@populateCachedLinks_rebrands extAllCached [movie] (rdLookup true)
                   rdThenPm 0%nat movie _) (lit "abc")
            rdEntry _ _ _ _).
  - reflexivity.
  - reflexivity.
  - discriminate.
  - vm_compute. reflexivity.
  - reflexivity.
Defined.

(** ** The order in which providers are applied *)

(** C1, as amended. Past the fast path and without classified error,
    [applyMochs] applies the successful lookups in the order of the keys of
    the configuration ([Object.keys(config)], not the order of the registry);
    each candidate becomes the link of the first provider, in that order,
    that reports its identifier as cached (a rewritten entry has no
    identifier, so later providers leave it alone), or stays as it is when
    none does; for a configuration none of whose keys names a member of
    [Object.prototype], the outcome is built from these merged candidates,
    and whenever a list is returned it holds that first provider's link.
    The outcome is a function of the blacklist, the candidates, the
    configuration and the providers' answers. *)
Theorem applyMochs_first_configured_wins `{External} TOKEN_BLACKLIST streams config :
  streams ≠ [] →
  truthy (hasMochConfigured (Some config)) = true →
  failingMochs TOKEN_BLACKLIST streams config = [] →
  let mochResults :=
    omap lookupOf
      (mochResult TOKEN_BLACKLIST streams config
       <$> omap (assoc MochOptions) (Object_keys (Config.props config))) in
  let cached := cachedStreams streams mochResults config in
  sublist (MochLookup.moch <$> mochResults)
          (omap (assoc MochOptions) (Object_keys (Config.props config)))
  ∧ (∀ i stream,
       streams !! i = Some stream →
       cached !! i
       = Some match List.find (reportsCached stream) mochResults with
              | Some mochResult => populateCachedLink mochResult config stream
              | None => stream
              end)
  ∧ (inheritedKeys config = [] →
     (applyMochs TOKEN_BLACKLIST (Some streams) (Some config)).2
     = match (if excludeDownloadLinks config then Returns cached
              else populateDownloadLinks cached mochResults config) with
       | Returns resultStreams =>
           Returns (Some (if includeTorrentLinks config then resultStreams
                          else List.filter (fun stream => truthy (Stream.url stream))
                                 resultStreams))
       | Throws msg => Throws msg
       end)
  ∧ (∀ out i stream mochResult,
       (applyMochs TOKEN_BLACKLIST (Some streams) (Some config)).2
       = Returns (Some out) →
       streams !! i = Some stream →
       List.find (reportsCached stream) mochResults = Some mochResult →
       populateCachedLink mochResult config stream ∈ out).
Proof.
  intros Hss Hcfg Hfail mochResults cached.
  assert (inheritedKeys config = [] →
          (applyMochs TOKEN_BLACKLIST (Some streams) (Some config)).2
          = match (if excludeDownloadLinks config then Returns cached
                   else populateDownloadLinks cached mochResults config) with
            | Returns resultStreams =>
                Returns (Some (if includeTorrentLinks config then resultStreams
                               else List.filter
                                      (fun stream => truthy (Stream.url stream))
                                      resultStreams))
            | Throws msg => Throws msg
            end) as Hout.
  { intros Hown. rewrite applyMochs_slow by done. cbn [snd].
    rewrite processMochResults_merging by done. cbn zeta.
    subst cached mochResults.
    change (omap (assoc MochOptions) (Object_keys (Config.props config)))
      with (registeredMochs config).
    destruct (excludeDownloadLinks config); [reflexivity|].
    by destruct (populateDownloadLinks _ _ config). }
  split; [|split; [|split]].
  - apply lookups_sublist.
  - intros i stream Hi. by apply cachedStreams_lookup.
  - exact Hout.
  - intros out i stream r Hres Hi Hfind.
    rewrite Hout in Hres by (by eapply applyMochs_Returns_own).
    pose proof (cachedStreams_lookup streams mochResults config i stream Hi) as Hc.
    rewrite Hfind in Hc. fold cached in Hc.
    apply list_elem_of_lookup_2 in Hc.
    apply find_some in Hfind as [_ Hr].
    unfold reportsCached, isCached in Hr.
    destruct (cachedEntryOf stream r) as [e|] eqn:He; [|discriminate Hr].
    rewrite (populateCachedLink_cached _ _ _ _ He Hr) in *.
    assert (∀ resultStreams,
              cachedLink stream (MochLookup.moch r) e config ∈ resultStreams →
              cachedLink stream (MochLookup.moch r) e config
              ∈ (if includeTorrentLinks config then resultStreams
                 else List.filter (fun stream => truthy (Stream.url stream))
                        resultStreams)) as Hkeep.
    { intros rs Hin. destruct (includeTorrentLinks config); [done|].
      apply list_elem_of_In, filter_In. split; [by apply list_elem_of_In|].
      apply cachedLink_url. }
    destruct (excludeDownloadLinks config).
    + injection Hres as <-. by apply Hkeep.
    + destruct (populateDownloadLinks cached mochResults config) as [rs|] eqn:Hd;
        [|discriminate Hres].
      injection Hres as <-. apply Hkeep.
      apply populateDownloadLinks_prefix in Hd as [pushed ->].
      apply elem_of_app. by left.
Qed.

Lemma applyMochs_first_configured_wins_witness :
  @cachedStreams extAllCached [movie]
    (omap lookupOf
       (@mochResult extAllCached [] [movie] pmThenRd
        <$> omap (assoc MochOptions) (Object_keys (Config.props pmThenRd))))
    pmThenRd !! 0%nat
  = Some (@cachedLink extAllCached movie Premiumize pmEntry pmThenRd).
Proof.
  refine (proj1 (proj2 (@applyMochs_first_configured_wins extAllCached [] [movie] pmThenRd
                          _ _ _)) 0%nat movie _).
  - discriminate.
  - reflexivity.
  - vm_compute. reflexivity.
  - reflexivity.
Defined.

(** C1, as stated, fails. RealDebrid precedes Premiumize in the registry,
    both are configured (in that same order) and both report [abc] as
    cached, yet the returned entry is the RealDebrid link, not the link of
    Premiumize, the later provider. *)
Lemma applyMochs_later_provider_counterexample :
  Object_keys MochOptions !! 0%nat = Some (lit "realdebrid")
  ∧ Object_keys MochOptions !! 1%nat = Some (lit "premiumize")
  ∧ @getCachedStreams extAllCached realdebrid [movie] sampleToken
    = Resolves (Some {[ lit "abc" := rdEntry ]})
  ∧ @getCachedStreams extAllCached premiumize [movie] sampleToken
    = Resolves (Some {[ lit "abc" := pmEntry ]})
  ∧ (@applyMochs extAllCached [] (Some [movie]) (Some rdThenPm)).2
    = Returns (Some [@cachedLink extAllCached movie RealDebrid rdEntry rdThenPm])
  ∧ Stream.name (@cachedLink extAllCached movie RealDebrid rdEntry rdThenPm)
    = lit "[RD+] Movie"
  ∧ @cachedLink extAllCached movie RealDebrid rdEntry rdThenPm
    ≠ @cachedLink extAllCached movie Premiumize pmEntry rdThenPm.
Proof.
  repeat split; try (vm_compute; reflexivity).
  intros Heq. apply (f_equal Stream.name) in Heq. vm_compute in Heq.
  discriminate Heq.
Qed.

(** With the keys of the configuration swapped, the same providers and
    candidates give the Premiumize link: the order is that of the
    configuration. *)
Example applyMochs_config_order :
  (@applyMochs extAllCached [] (Some [movie]) (Some pmThenRd)).2
  = Returns (Some [@cachedLink extAllCached movie Premiumize pmEntry pmThenRd]).
Proof. vm_compute. reflexivity. Qed.

(** ** Download links *)

Section Downloads.
Context `{External}.

Lemma pushDownloadLink_uncached seeded config stream mochResult entry :
  mochStreams_get (MochLookup.mochStreams mochResult)
    (interpolate (Stream.infoHash stream)) = Some entry →
  CachedEntry.cached entry = false →
  isHealthyStreamForDebrid seeded stream = true →
  pushDownloadLink seeded config stream mochResult
  = Returns (Some (downloadLink stream (MochLookup.moch mochResult) entry config)).
Proof.
  intros He Hc Hh. unfold pushDownloadLink. rewrite He. cbn. by rewrite Hc, Hh.
Qed.

(** Without an entry for the identifier, own or inherited, reading
    [cachedEntry.url] throws. *)
Lemma pushDownloadLink_missing seeded config stream mochResult :
  mochStreams_get (MochLookup.mochStreams mochResult)
    (interpolate (Stream.infoHash stream)) = None →
  isHealthyStreamForDebrid seeded stream = true →
  pushDownloadLink seeded config stream mochResult = Throws TypeError.
Proof. intros He Hh. unfold pushDownloadLink. rewrite He. cbn. by rewrite Hh. Qed.

Lemma pushDownloadLink_Throws seeded config stream mochResult msg :
  pushDownloadLink seeded config stream mochResult = Throws msg → msg = TypeError.
Proof.
  unfold pushDownloadLink.
  destruct (_ && _); [|discriminate].
  destruct (mochStreams_get _ _); [discriminate|]. by intros [= <-].
Qed.

(** One healthy candidate whose identifier a provider's map lacks, and
    which is not the name of a member of [Object.prototype], makes the whole
    of [populateDownloadLinks] throw. *)
Lemma populateDownloadLinks_missing streams mochResults config stream mochResult :
  stream ∈ torrentStreams streams →
  mochResult ∈ mochResults →
  MochLookup.mochStreams mochResult !! interpolate (Stream.infoHash stream) = None →
  array_includes Object_prototype (interpolate (Stream.infoHash stream)) = false →
  isHealthyStreamForDebrid (seededStreams streams) stream = true →
  populateDownloadLinks streams mochResults config = Throws TypeError.
Proof.
  intros Hs Hr He Hown Hh. unfold populateDownloadLinks.
  rewrite (mapM_Completion_Throws _ _ stream TypeError); [done|done| |].
  - apply (mapM_Completion_Throws _ _ mochResult); [done| |].
    + apply pushDownloadLink_missing; [|done].
      unfold mochStreams_get, lookupMember. by rewrite He, Hown.
    + intros r msg _. apply pushDownloadLink_Throws.
  - intros s msg _ Hthrow.
    apply mapM_Completion_Throws_inv in Hthrow as (r & _ & Hthrow).
    by apply pushDownloadLink_Throws in Hthrow.
Qed.

(** When every provider's map has an entry for every candidate that has an
    identifier, [populateDownloadLinks] appends, candidate by candidate and
    provider by provider, a download entry for each uncached entry of a
    healthy candidate. *)
Lemma populateDownloadLinks_present streams mochResults config :
  (∀ stream mochResult,
     stream ∈ torrentStreams streams → mochResult ∈ mochResults →
     is_Some (MochLookup.mochStreams mochResult
              !! interpolate (Stream.infoHash stream))) →
  populateDownloadLinks streams mochResults config
  = Returns (streams ++ omap id (mjoin (
      (fun stream =>
         (fun mochResult =>
            match MochLookup.mochStreams mochResult
                  !! interpolate (Stream.infoHash stream) with
            | Some entry =>
                if negb (CachedEntry.cached entry)
                   && isHealthyStreamForDebrid (seededStreams streams) stream
                then Some (downloadLink stream (MochLookup.moch mochResult) entry config)
                else None
            | None => None
            end) <$> mochResults)
      <$> torrentStreams streams))).
Proof.
  intros Hall. unfold populateDownloadLinks.
  erewrite mapM_Completion_Returns; [reflexivity|].
  apply Forall_forall. intros stream Hs. cbn beta.
  apply mapM_Completion_Returns.
  apply Forall_forall. intros r Hr.
  destruct (Hall stream r Hs Hr) as [entry He].
  unfold pushDownloadLink. rewrite (mochStreams_get_own _ _ _ He), He. cbn.
  by destruct (_ && _).
Qed.

End Downloads.

(** C5 at the failing input. One candidate with identifier [abc], RealDebrid
    configured with a valid credential and download links not excluded; the
    provider answers with a map that has no entry for [abc]. The candidate is
    healthy (no seeded candidate, so at most 5), and [applyMochs] calls the
    provider and then throws a [TypeError] instead of appending
    "[RD download] Movie". *)
Lemma applyMochs_missing_entry_throws :
  @excludeDownloadLinks extNoEntries rdOnly = false
  ∧ isHealthyStreamForDebrid (seededStreams [movie]) movie = true
  ∧ @applyMochs extNoEntries [] (Some [movie]) (Some rdOnly)
    = ([GetCachedStreams realdebrid sampleToken], Throws TypeError).
Proof. repeat split; vm_compute; reflexivity. Qed.

(** The example of the specification: with [{abc: {cached: false}}] the
    download entry is appended (and the candidate itself, which has no url,
    is filtered out). *)
Example applyMochs_download_link :
  (@applyMochs extUncachedNoUrl [] (Some [movie]) (Some rdOnly)).2
  = Returns (Some [ {| Stream.infoHash := None;
                       Stream.name := lit "[RD download] Movie";
                       Stream.title := Stream.title movie;
                       Stream.url :=
                         Some (lit "http://host/realdebrid/undefined/Movie.mkv");
                       Stream.behaviorHints := Some 7%N |} ]).
Proof. vm_compute. reflexivity. Qed.

(** ** The health policy *)

(** C6, as amended. At its call site in [populateDownloadLinks] the policy
    holds exactly when the candidate's title lacks the zero-seeders marker,
    or its name contains "4k", or at most 5 candidates of the list lack the
    zero-seeders marker. *)
Theorem isHealthyStreamForDebrid_seeded (streams : list Stream.t) (stream : Stream.t) :
  isHealthyStreamForDebrid (seededStreams streams) stream = true
  ↔ includes (Stream.title stream) zeroSeeders = false
    ∨ includes (Stream.name stream) (lit "4k") = true
    ∨ (length (List.filter
                 (fun s => negb (includes (Stream.title s) zeroSeeders)) streams)
       ≤ 5)%nat.
Proof.
  unfold isHealthyStreamForDebrid, seededStreams.
  rewrite !orb_true_iff, negb_true_iff, Nat.leb_le. tauto.
Qed.

(** C6, as stated, fails. In a pool of six candidates, all flagged with zero
    seeders and none 4k, the policy of the claim is false for each of them
    (the pool has more than 5 entries), yet the code judges them healthy and
    appends a download entry for each. *)
Lemma isHealthyStreamForDebrid_pool_counterexample :
  length zeroSeederPool = 6%nat
  ∧ negb (includes (Stream.title movie) zeroSeeders)
    || includes (Stream.name movie) (lit "4k")
    || (length zeroSeederPool <=? 5)%nat = false
  ∧ isHealthyStreamForDebrid (seededStreams zeroSeederPool) movie = true
  ∧ @populateDownloadLinks extAllCached zeroSeederPool [rdLookup false] rdOnly
    = Returns (zeroSeederPool
               ++ replicate 6 (@downloadLink extAllCached movie RealDebrid
                                 rdUncachedEntry rdOnly)).
Proof. repeat split; vm_compute; reflexivity. Qed.

(** ** The resolver *)

Section Resolving.
Context `{External}.
Implicit Types (cache : gmap jsstring jsstring) (moch : Moch.t).
Implicit Types (parameters : Parameters.t).


(** A valid request is handed to the queue. *)
Lemma resolve_valid cache parameters moch :
  assoc MochOptions (interpolate (Parameters.mochKey parameters)) = Some moch →
  truthy (Parameters.apiKey parameters) = true →
  truthy (Parameters.infoHash parameters) = true →
  truthy (Parameters.cachedEntryInfo parameters) = true →
  resolve cache parameters
  = unrestrictQueue_processor (method cache moch parameters)
      (fun error result =>
         if truthy result then Fulfilled result else Rejected error).
Proof. intros Hm Ha Hi Hc. unfold resolve. by rewrite Hm, Ha, Hi, Hc. Qed.

(** When the provider's promise is late, pending or rejected, [method]
    fulfils with the host-prefixed sentinel. *)
Lemma method_sentinel cache moch parameters :
  cache !! resolveId parameters = None →
  isStaticUrl (Some FAILED_UNEXPECTED) = true →
  instance_resolve (Moch.instance moch) parameters = Pending
  ∨ (∃ t s, instance_resolve (Moch.instance moch) parameters = SettlesAt t s
            ∧ (RESOLVE_TIMEOUT ≤ t)%N)
  ∨ (∃ t reason, instance_resolve (Moch.instance moch) parameters
                 = SettlesAt t (Rejected reason)) →
  ∃ t', (t' ≤ RESOLVE_TIMEOUT)%N
        ∧ method cache moch parameters
          = SettlesAt t' (Fulfilled (Some (interpolate (Parameters.host parameters)
                                           ++ lit "/" ++ FAILED_UNEXPECTED))).
Proof.
  intros Hmiss Hstatic Hcase.
  unfold method, cacheWrapResolvedUrl, timeout. rewrite Hmiss.
  destruct Hcase as [->|[(t & s & -> & Ht)|(t & reason & ->)]].
  - cbn. rewrite Hstatic. eexists. split; [|reflexivity]. lia.
  - apply N.ltb_ge in Ht. rewrite Ht. cbn. rewrite Hstatic.
    eexists. split; [|reflexivity]. lia.
  - destruct (t <? RESOLVE_TIMEOUT)%N eqn:Ht; cbn; rewrite Hstatic;
      (eexists; split; [|reflexivity]).
    + apply N.ltb_lt in Ht. lia.
    + lia.
Qed.

End Resolving.

(** C8. For a valid resolve request that misses the resolved-URL cache, with
    [FAILED_UNEXPECTED] recognised by [isStaticUrl]: if the provider's
    [resolve] promise never settles, settles no earlier than the deadline of
    120000 ms, or rejects, then the promise returned by [resolve] fulfils, by
    the deadline, with "<host>/<FAILED_UNEXPECTED>"; and if the provider
    fulfils before the deadline with a non-empty url that [isStaticUrl] does
    not recognise, [resolve] fulfils with that url unchanged. *)
Theorem resolve_timeout_sentinel `{External} cache parameters moch :
  assoc MochOptions (interpolate (Parameters.mochKey parameters)) = Some moch →
  truthy (Parameters.apiKey parameters) = true →
  truthy (Parameters.infoHash parameters) = true →
  truthy (Parameters.cachedEntryInfo parameters) = true →
  cache !! resolveId parameters = None →
  isStaticUrl (Some FAILED_UNEXPECTED) = true →
  (instance_resolve (Moch.instance moch) parameters = Pending
   ∨ (∃ t s, instance_resolve (Moch.instance moch) parameters = SettlesAt t s
             ∧ (RESOLVE_TIMEOUT ≤ t)%N)
   ∨ (∃ t reason, instance_resolve (Moch.instance moch) parameters
                  = SettlesAt t (Rejected reason)) →
   ∃ t', (t' ≤ RESOLVE_TIMEOUT)%N
         ∧ resolve cache parameters
           = SettlesAt t' (Fulfilled (Some (interpolate (Parameters.host parameters)
                                            ++ lit "/" ++ FAILED_UNEXPECTED))))
  ∧ (∀ t url,
       instance_resolve (Moch.instance moch) parameters
       = SettlesAt t (Fulfilled (Some url)) →
       (t < RESOLVE_TIMEOUT)%N → url ≠ [] → isStaticUrl (Some url) = false →
       resolve cache parameters = SettlesAt t (Fulfilled (Some url))).
Proof.
  intros Hm Ha Hi Hc Hmiss Hstatic.
  rewrite (resolve_valid _ _ _ Hm Ha Hi Hc). split.
  - intros Hcase.
    destruct (method_sentinel cache moch parameters Hmiss Hstatic Hcase)
      as (t' & Ht' & ->).
    exists t'. split; [done|]. cbn.
    by destruct (interpolate (Parameters.host parameters)).
  - intros t url Hres Ht Hne Hns.
    unfold method, cacheWrapResolvedUrl, timeout. rewrite Hmiss, Hres.
    apply N.ltb_lt in Ht. rewrite Ht. cbn. rewrite Hns. cbn.
    by destruct url.
Qed.

Lemma resolve_timeout_sentinel_witness :
  ∃ t', (t' ≤ RESOLVE_TIMEOUT)%N
        ∧ @resolve extAllCached ∅ sampleParameters
          = SettlesAt t'
              (Fulfilled (Some (lit "http://host/videos/failed_unexpected_v2.mp4"))).
Proof.
  refine (proj1 (@resolve_timeout_sentinel extAllCached ∅ sampleParameters RealDebrid
                   _ _ _ _ _ _) _).
  - reflexivity.
  - reflexivity.
  - reflexivity.
  - reflexivity.
  - reflexivity.
  - reflexivity.
  - left. reflexivity.
Defined.

(** A provider that rejects at once gives the same sentinel at once, and a
    provider that resolves in one second gives its url. *)
Example resolve_rejected :
  @resolve (sampleExternal allCached
              (SettlesAt 0 (Rejected (ProviderError (OtherError 1)))) false)
    ∅ sampleParameters
  = SettlesAt 0 (Fulfilled (Some (lit "http://host/videos/failed_unexpected_v2.mp4"))).
Proof. vm_compute. reflexivity. Qed.

Example resolve_url :
  @resolve (sampleExternal allCached
              (SettlesAt 1000 (Fulfilled (Some (lit "https://cdn/file.mkv")))) false)
    ∅ sampleParameters
  = SettlesAt 1000 (Fulfilled (Some (lit "https://cdn/file.mkv"))).
Proof. vm_compute. reflexivity. Qed.

(** C10. For a valid resolve request whose queued [method] fulfils with
    [value]: the promise returned by [resolve] fulfils with [value] when it
    is truthy and rejects with [false] when it is falsy; and whenever
    [resolve] fulfils, it is with a truthy value. *)
Theorem resolve_rejects_falsy `{External} cache parameters moch t value :
  assoc MochOptions (interpolate (Parameters.mochKey parameters)) = Some moch →
  truthy (Parameters.apiKey parameters) = true →
  truthy (Parameters.infoHash parameters) = true →
  truthy (Parameters.cachedEntryInfo parameters) = true →
  method cache moch parameters = SettlesAt t (Fulfilled value) →
  resolve cache parameters
  = SettlesAt t (if truthy value then Fulfilled value else Rejected FalseValue)
  ∧ (∀ t' value',
       resolve cache parameters = SettlesAt t' (Fulfilled value') →
       truthy value' = true).
Proof.
  intros Hm Ha Hi Hc Hmethod.
  rewrite (resolve_valid _ _ _ Hm Ha Hi Hc), Hmethod. cbn. split; [done|].
  intros t' value'. destruct (truthy value) eqn:Hv; [|discriminate].
  by intros [= _ <-].
Qed.

Lemma resolve_rejects_falsy_witness :
  @resolve extAllCached emptyUrlCache sampleParameters = SettlesAt 0 (Rejected FalseValue).
Proof.
  refine (proj1 (@resolve_rejects_falsy extAllCached emptyUrlCache sampleParameters
                   RealDebrid 0%N (Some []) _ _ _ _ _)).
  - reflexivity.
  - reflexivity.
  - reflexivity.
  - reflexivity.
  - vm_compute. reflexivity.
Defined.

(** ** Blacklisting *)

(** A credential the provider rejects with [BadTokenError] is blacklisted by
    the aggregation that called it. *)
Lemma callMoch_blacklists `{External} TOKEN_BLACKLIST streams config moch token :
  assoc (Config.props config) (Moch.key moch) = Some token →
  isInvalidToken TOKEN_BLACKLIST token (Moch.key moch) = false →
  getCachedStreams (Moch.instance moch) streams token = Rejects BadTokenError →
  tokenKey token (Moch.key moch)
  ∈ blacklistAfter TOKEN_BLACKLIST (callMoch TOKEN_BLACKLIST streams config moch).1.
Proof.
  intros Ht Hinv Hrej. unfold callMoch, blacklistAfter.
  rewrite Ht, Hinv, Hrej. cbn. apply elem_of_app. right. apply list_elem_of_here.
Qed.

(** The next aggregation with that blacklist no longer calls the provider. *)
Example applyMochs_after_blacklisting :
  (@applyMochs extRdBadToken [] (Some [movie]) (Some rdOnly)).1
  = [GetCachedStreams realdebrid sampleToken;
     BlackListToken (tokenKey sampleToken (lit "realdebrid"))]
  ∧ @applyMochs extRdBadToken
      (blacklistAfter [] (@applyMochs extRdBadToken [] (Some [movie]) (Some rdOnly)).1)
      (Some [movie]) (Some rdOnly)
    = ([], Returns (Some [@badTokenStream extRdBadToken RealDebrid rdOnly])).
Proof. split; vm_compute; reflexivity. Qed.

(** * Further properties *)

(** ** What an aggregation calls and blacklists *)

Section Tracing.
Context `{External}.
Implicit Types (bl : list jsstring) (ss : list Stream.t).
Implicit Types (cfg : Config.t) (moch : Moch.t).

(** The events of one provider's step. *)
Lemma callMoch_events bl ss cfg moch e :
  e ∈ (callMoch bl ss cfg moch).1 →
  ∃ token,
    assoc (Config.props cfg) (Moch.key moch) = Some token
    ∧ isInvalidToken bl token (Moch.key moch) = false
    ∧ (e = GetCachedStreams (Moch.instance moch) token
       ∨ (e = BlackListToken (tokenKey token (Moch.key moch))
          ∧ getCachedStreams (Moch.instance moch) ss token = Rejects BadTokenError)).
Proof.
  unfold callMoch.
  destruct (assoc (Config.props cfg) (Moch.key moch)) as [token|] eqn:Ht;
    [|intros He; by apply elem_of_nil in He].
  destruct (isInvalidToken bl token (Moch.key moch)) eqn:Hinv;
    [intros He; by apply elem_of_nil in He|].
  intros He. exists token. split; [done|]. split; [done|].
  destruct (getCachedStreams _ _ _) as [ms|err] eqn:Hcall; cbn in He.
  - apply list_elem_of_singleton in He. by left.
  - destruct (decide (err = BadTokenError)) as [->|Hne]; cbn in He.
    + apply elem_of_cons in He as [->|He]; [by left|].
      apply list_elem_of_singleton in He. by right.
    + apply list_elem_of_singleton in He. by left.
Qed.

Lemma hasMochConfigured_absent : hasMochConfigured None = None.
Proof. reflexivity. Qed.

(** Every event of an aggregation is an event of the step of a provider
    considered, all of whose events the aggregation has; there is none on
    the fast path. *)
Lemma applyMochs_events bl streams config e :
  e ∈ (applyMochs bl streams config).1 →
  ∃ ss cfg moch,
    streams = Some ss ∧ config = Some cfg ∧ ss ≠ []
    ∧ truthy (hasMochConfigured (Some cfg)) = true
    ∧ moch ∈ registeredMochs cfg
    ∧ e ∈ (callMoch bl ss cfg moch).1
    ∧ ∀ e', e' ∈ (callMoch bl ss cfg moch).1 → e' ∈ (applyMochs bl streams config).1.
Proof.
  intros He.
  destruct streams as [[|s ss]|]; try (by apply elem_of_nil in He).
  destruct config as [cfg|]; [|by apply elem_of_nil in He].
  destruct (truthy (hasMochConfigured (Some cfg))) eqn:Hcfg; cycle 1.
  { unfold applyMochs in He. rewrite Hcfg in He. by apply elem_of_nil in He. }
  rewrite applyMochs_steps in * by done. cbn [fst] in *.
  apply mapM_Traced_events in He as (m & Hm & He & Hall).
  destruct m as [moch|]; cycle 1.
  { cbn [callMember] in He.
    destruct (callInherited_cases bl cfg) as [Hc|Hc]; rewrite Hc in He;
      by apply elem_of_nil in He. }
  destruct (callMember_Own bl (s :: ss) cfg moch) as [Htr _].
  rewrite Htr in He, Hall.
  exists (s :: ss), cfg, moch. repeat (split; [done|]).
  split; [by apply configuredMochs_elem|]. by split.
Qed.

Lemma providerCalls_callMoch bl ss cfg moch :
  providerCalls (callMoch bl ss cfg moch).1 = []
  ∨ providerCalls (callMoch bl ss cfg moch).1 = [Moch.instance moch].
Proof.
  unfold callMoch, providerCalls.
  destruct (assoc _ _) as [token|]; [|by left].
  destruct (isInvalidToken _ _ _); [by left|]. right.
  destruct (getCachedStreams _ _ _) as [ms|err]; [done|].
  by destruct (decide (err = BadTokenError)).
Qed.

Lemma providerCalls_NoDup bl ss cfg (mochs : list Moch.t) :
  NoDup mochs →
  (∀ moch, moch ∈ mochs → assoc MochOptions (Moch.key moch) = Some moch) →
  NoDup (providerCalls
           (mjoin ((fun moch => (callMoch bl ss cfg moch).1) <$> mochs))).
Proof.
  intros Hnd Hreg. induction Hnd as [|m l Hm Hnd IH]; [constructor|].
  cbn [fmap list_fmap mjoin list_join]. unfold providerCalls at 1.
  rewrite omap_app. fold (providerCalls (callMoch bl ss cfg m).1).
  fold (providerCalls (mjoin ((fun moch => (callMoch bl ss cfg moch).1) <$> l))).
  assert (NoDup (providerCalls
                   (mjoin ((fun moch => (callMoch bl ss cfg moch).1) <$> l))))
    as IH'.
  { apply IH. intros m' Hm'. apply Hreg. by apply list_elem_of_further. }
  destruct (providerCalls_callMoch bl ss cfg m) as [-> | ->]; [done|].
  cbn. constructor; [|done]. intros Hin.
  unfold providerCalls in Hin. apply list_elem_of_omap in Hin as (e & He & Hev).
  apply list_elem_of_join in He as (tr & He & Htr).
  apply list_elem_of_fmap in Htr as (m' & -> & Hm').
  apply callMoch_events in He as (token & _ & _ & Hcase).
  assert (e = GetCachedStreams (Moch.instance m') token) as ->.
  { destruct Hcase as [->|[-> _]]; [done|discriminate Hev]. }
  injection Hev as Hinst.
  assert (m' = m) as ->.
  { eapply MochOptions_instance; [| |exact Hinst]; apply Hreg.
    - by apply list_elem_of_further.
    - apply list_elem_of_here. }
  done.
Qed.

(** The steps for inherited members have no event: the events of all the
    steps are those of the providers considered. *)
Lemma configuredMochs_traces bl ss cfg :
  mjoin ((fun m => (callMember bl ss cfg m).1) <$> configuredMochs cfg)
  = mjoin ((fun moch => (callMoch bl ss cfg moch).1) <$> registeredMochs cfg).
Proof.
  unfold configuredMochs, registeredMochs.
  induction (Object_keys (Config.props cfg)) as [|k l IH]; [done|].
  cbn [omap list_omap].
  destruct (assoc MochOptions k) as [moch|] eqn:Hreg.
  - rewrite (MochOptions_get_Own _ _ Hreg), !fmap_cons.
    change (mjoin (?tr :: ?trs)) with (tr ++ mjoin trs).
    rewrite IH. f_equal. apply (proj1 (callMember_Own bl ss cfg moch)).
  - destruct (array_includes Object_prototype k) eqn:Hk.
    + rewrite (MochOptions_get_Inherited _ Hk), fmap_cons.
      change (mjoin (?tr :: ?trs)) with (tr ++ mjoin trs).
      rewrite IH. cbn [callMember].
      by destruct (callInherited_cases bl cfg) as [-> | ->].
    + by rewrite (MochOptions_get_None _ Hreg Hk).
Qed.

(** The call of a provider of the registry that an aggregation has made and
    that the provider rejects with [BadTokenError] leaves the credential in
    the blacklist. *)
Lemma applyMochs_blacklists_called bl ss cfg moch token :
  assoc MochOptions (Moch.key moch) = Some moch →
  GetCachedStreams (Moch.instance moch) token ∈ (applyMochs bl (Some ss) (Some cfg)).1 →
  getCachedStreams (Moch.instance moch) ss token = Rejects BadTokenError →
  BlackListToken (tokenKey token (Moch.key moch))
  ∈ (applyMochs bl (Some ss) (Some cfg)).1.
Proof.
  intros Hreg Hcall Hrej.
  apply applyMochs_events in Hcall
    as (ss' & cfg' & m & [= <-] & [= <-] & _ & _ & Hm & He & Hall).
  apply Hall. pose proof He as He'.
  apply callMoch_events in He' as (token' & Htok & Hvalid & Hcase).
  destruct Hcase as [[= Hinst ->]|[[=] _]].
  apply registeredMochs_registered in Hm as [Hreg' _].
  pose proof (MochOptions_instance _ _ _ _ Hreg Hreg' Hinst) as <-.
  unfold callMoch. rewrite Htok, Hvalid, Hrej. cbn.
  apply list_elem_of_further, list_elem_of_here.
Qed.

End Tracing.

(** X1. The blacklist after an aggregation holds what it held before and,
    besides, exactly the pairs "<key>|<credential>" of the calls that the
    aggregation made and that the provider rejected with [BadTokenError]:
    nothing is ever removed, and no other failure, not [AccessDeniedError]
    either, blacklists a credential. When the candidate list is not empty
    and no key of the configuration names a member of [Object.prototype],
    the calls made are those of all the providers considered whose
    credential passes the guard. *)
Theorem applyMochs_blacklist `{External} TOKEN_BLACKLIST streams config k :
  (k ∈ blacklistAfter TOKEN_BLACKLIST
         (applyMochs TOKEN_BLACKLIST (Some streams) (Some config)).1
   ↔ k ∈ TOKEN_BLACKLIST
     ∨ ∃ moch token,
         moch ∈ registeredMochs config
         ∧ GetCachedStreams (Moch.instance moch) token
           ∈ (applyMochs TOKEN_BLACKLIST (Some streams) (Some config)).1
         ∧ getCachedStreams (Moch.instance moch) streams token = Rejects BadTokenError
         ∧ k = tokenKey token (Moch.key moch))
  ∧ (streams ≠ [] → inheritedKeys config = [] →
     ∀ moch token,
       moch ∈ registeredMochs config →
       assoc (Config.props config) (Moch.key moch) = Some token →
       isInvalidToken TOKEN_BLACKLIST token (Moch.key moch) = false →
       GetCachedStreams (Moch.instance moch) token
       ∈ (applyMochs TOKEN_BLACKLIST (Some streams) (Some config)).1).
Proof.
  split.
  - unfold blacklistAfter. rewrite elem_of_app. split.
    + intros [Hk|Hk]; [by left|right].
      apply list_elem_of_omap in Hk as (e & He & Hev).
      apply applyMochs_events in He
        as (ss & cfg & m & [= <-] & [= <-] & _ & _ & Hm & He & Hall).
      apply callMoch_events in He as (token & Htok & Hvalid & Hcase).
      destruct Hcase as [->|[-> Hrej]]; [discriminate Hev|].
      injection Hev as <-. exists m, token. split; [done|]. split; [|done].
      apply Hall. unfold callMoch. rewrite Htok, Hvalid, Hrej. cbn.
      apply list_elem_of_here.
    + intros [Hk|(moch & token & Hm & Hcall & Hrej & ->)]; [by left|right].
      apply list_elem_of_omap.
      exists (BlackListToken (tokenKey token (Moch.key moch))). split; [|done].
      apply applyMochs_blacklists_called; [|done..].
      by apply registeredMochs_registered in Hm as [Hm _].
  - intros Hss Hown moch token Hm Htok Hvalid.
    rewrite applyMochs_slow; [|done|by eapply hasMochConfigured_token|done].
    cbn [fst]. apply list_elem_of_join.
    exists (callMoch TOKEN_BLACKLIST streams config moch).1. split.
    + unfold callMoch. rewrite Htok, Hvalid. cbn.
      destruct (getCachedStreams _ _ _) as [ms|err]; [apply list_elem_of_here|].
      destruct (decide (err = BadTokenError)); apply list_elem_of_here.
    + apply list_elem_of_fmap. by exists moch.
Qed.

Lemma applyMochs_blacklist_witness :
  tokenKey sampleToken (lit "realdebrid")
  ∈ blacklistAfter [] (@applyMochs extRdBadToken [] (Some [movie]) (Some rdOnly)).1.
Proof.
  refine (proj2 (proj1 (@applyMochs_blacklist extRdBadToken [] [movie] rdOnly _)) _).
  right. exists RealDebrid, sampleToken.
  split; [vm_compute; apply list_elem_of_here|].
  split; [vm_compute; apply list_elem_of_here|]. by split.
Defined.

(** X2. Whatever its arguments, an aggregation calls [getCachedStreams] only
    of providers that the registry knows under a key of the configuration,
    only with the credential the configuration holds under that key, and
    only if that credential passed the guard; and, the keys of a
    configuration being distinct, it calls no provider twice. *)
Theorem applyMochs_calls `{External} TOKEN_BLACKLIST streams config :
  (∀ instance token,
     GetCachedStreams instance token
     ∈ (applyMochs TOKEN_BLACKLIST streams (Some config)).1 →
     ∃ moch, moch ∈ registeredMochs config
             ∧ instance = Moch.instance moch
             ∧ assoc (Config.props config) (Moch.key moch) = Some token
             ∧ isInvalidToken TOKEN_BLACKLIST token (Moch.key moch) = false)
  ∧ (NoDup (Object_keys (Config.props config)) →
     NoDup (providerCalls (applyMochs TOKEN_BLACKLIST streams (Some config)).1)).
Proof.
  split.
  - intros instance token He.
    apply applyMochs_events in He
      as (ss & cfg & m & _ & [= <-] & _ & _ & Hm & He & _).
    apply callMoch_events in He as (token' & Htok & Hvalid & Hcase).
    destruct Hcase as [[= -> ->]|[[=] _]]. by exists m.
  - intros Hnd.
    destruct streams as [[|s ss]|]; try (cbn; constructor).
    destruct (truthy (hasMochConfigured (Some config))) eqn:Hcfg.
    + rewrite applyMochs_steps by done. cbn [fst].
      destruct (mapM_Traced_prefix (callMember TOKEN_BLACKLIST (s :: ss) config)
                  (configuredMochs config)) as [rest Hrest].
      rewrite configuredMochs_traces in Hrest.
      assert (NoDup (providerCalls
                (mjoin ((fun moch => (callMoch TOKEN_BLACKLIST (s :: ss) config moch).1)
                        <$> registeredMochs config)))) as Hall.
      { apply providerCalls_NoDup; [by apply registeredMochs_NoDup|].
        intros m Hm. by apply registeredMochs_registered in Hm as [Hm _]. }
      rewrite Hrest in Hall. unfold providerCalls in Hall.
      rewrite omap_app in Hall. by apply NoDup_app in Hall as [Hall _].
    + unfold applyMochs. rewrite Hcfg. cbn. constructor.
Qed.

Lemma applyMochs_calls_witness :
  NoDup (providerCalls (@applyMochs extAllCached [] (Some [movie]) (Some rdThenPm)).1).
Proof.
  refine (proj2 (@applyMochs_calls extAllCached [] (Some [movie]) rdThenPm) _).
  vm_compute. repeat constructor; intros Hin;
    repeat (apply elem_of_cons in Hin as [Hin|Hin]; [discriminate Hin|]);
    by apply elem_of_nil in Hin.
Defined.

(** X3. Once an aggregation has made the call of a provider of the registry
    and the provider has rejected it with [BadTokenError], no later
    aggregation whose blacklist still holds what the blacklist held after
    that one calls this provider with the same credential, whatever its
    candidates and the rest of its configuration. *)
Theorem applyMochs_rejected_token_not_called_again `{External} TOKEN_BLACKLIST
    streams config moch token TOKEN_BLACKLIST' streams' config' :
  assoc MochOptions (Moch.key moch) = Some moch →
  GetCachedStreams (Moch.instance moch) token
  ∈ (applyMochs TOKEN_BLACKLIST (Some streams) (Some config)).1 →
  getCachedStreams (Moch.instance moch) streams token = Rejects BadTokenError →
  blacklistAfter TOKEN_BLACKLIST
    (applyMochs TOKEN_BLACKLIST (Some streams) (Some config)).1
  ⊆ TOKEN_BLACKLIST' →
  assoc (Config.props config') (Moch.key moch) = Some token →
  Moch.instance moch
  ∉ providerCalls (applyMochs TOKEN_BLACKLIST' streams' (Some config')).1.
Proof.
  intros Hreg Hcall Hrej Hsub Htok'.
  apply (applyMochs_guarded _ _ _ (Moch.key moch) moch token); [done..|].
  unfold isInvalidToken. apply orb_true_iff. right.
  apply bool_decide_eq_true, Hsub.
  unfold blacklistAfter. apply elem_of_app. right.
  apply list_elem_of_omap. exists (BlackListToken (tokenKey token (Moch.key moch))).
  split; [|done]. by apply applyMochs_blacklists_called.
Qed.

Lemma applyMochs_rejected_token_not_called_again_witness :
  Moch.instance RealDebrid
  ∉ providerCalls
      (@applyMochs extRdBadToken
         (blacklistAfter [] (@applyMochs extRdBadToken [] (Some [movie]) (Some rdOnly)).1)
         (Some [movie; direct]) (Some rdThenPm)).1.
Proof.
  apply (@applyMochs_rejected_token_not_called_again extRdBadToken [] [movie]
           rdOnly RealDebrid sampleToken).
  - reflexivity.
  - vm_compute. apply list_elem_of_here.
  - reflexivity.
  - done.
  - reflexivity.
Defined.

(** ** The shape of the merged list *)

Section Shape.
Context `{External}.
Implicit Types (streams : list Stream.t) (stream : Stream.t).
Implicit Types (config : Config.t) (mochResults : list MochLookup.t).

Lemma placeholder_url config moch error :
  truthy (Stream.url (placeholder config moch error)) = true.
Proof.
  unfold placeholder.
  destruct error as [[| |code]|]; cbn; by destruct (interpolate (Config.host config)).
Qed.

Lemma downloadLink_url stream moch entry config :
  truthy (Stream.url (downloadLink stream moch entry config)) = true.
Proof. cbn. by destruct (interpolate (Config.host config)). Qed.

(** What the fold does to one candidate. *)
Lemma fold_populateCachedLink_cases config mochResults stream :
  let merged :=
    fold_left (fun s r => populateCachedLink r config s) mochResults stream in
  (merged = stream
   ∧ forallb (fun r => negb (reportsCached stream r)) mochResults = true)
  ∨ (∃ r entry,
       r ∈ mochResults ∧ cachedEntryOf stream r = Some entry
       ∧ CachedEntry.cached entry = true
       ∧ merged = cachedLink stream (MochLookup.moch r) entry config).
Proof.
  cbn zeta. rewrite fold_populateCachedLink_first.
  destruct (List.find (reportsCached stream) mochResults) as [r|] eqn:Hfind.
  - right. apply find_some in Hfind as [Hr Hc].
    unfold reportsCached, isCached in Hc.
    destruct (cachedEntryOf stream r) as [e|] eqn:He; [|discriminate Hc].
    exists r, e. split; [by apply list_elem_of_In|]. split; [done|]. split; [done|].
    by apply populateCachedLink_cached.
  - left. split; [done|]. apply forallb_forall. intros r Hr.
    by rewrite (find_none _ _ Hfind r Hr).
Qed.

Lemma populateDownloadLinks_nil streams config :
  populateDownloadLinks streams [] config = Returns streams.
Proof.
  unfold populateDownloadLinks.
  rewrite (mapM_Completion_Returns _ (fun _ => [])).
  - cbn. induction (torrentStreams streams) as [|s l IH]; cbn in *.
    + by rewrite app_nil_r.
    + done.
  - by apply Forall_forall.
Qed.

End Shape.

(** X4. Merging the provider lookups keeps the list's length and order and
    each candidate's [title] and [behaviorHints]: at every position the
    entry is either the candidate itself, when no lookup reports it cached,
    or a link without identifier and with a url, built from a lookup that
    reports it cached. *)
Theorem cachedStreams_shape `{External} streams mochResults config :
  length (cachedStreams streams mochResults config) = length streams
  ∧ ∀ i stream,
      streams !! i = Some stream →
      ∃ merged,
        cachedStreams streams mochResults config !! i = Some merged
        ∧ Stream.title merged = Stream.title stream
        ∧ Stream.behaviorHints merged = Stream.behaviorHints stream
        ∧ ((merged = stream
            ∧ forallb (fun r => negb (reportsCached stream r)) mochResults = true)
           ∨ (Stream.infoHash merged = None
              ∧ truthy (Stream.url merged) = true
              ∧ ∃ r, r ∈ mochResults ∧ reportsCached stream r = true)).
Proof.
  rewrite cachedStreams_fmap. split; [apply length_fmap|].
  intros i stream Hi. rewrite list_lookup_fmap, Hi. cbn.
  eexists. split; [reflexivity|].
  destruct (fold_populateCachedLink_cases config mochResults stream)
    as [[-> Hnone]|(r & e & Hr & He & Hc & ->)].
  - split; [done|]. split; [done|]. by left.
  - split; [done|]. split; [done|]. right.
    split; [done|]. split; [apply cachedLink_url|].
    exists r. split; [done|]. unfold reportsCached, isCached. by rewrite He.
Qed.

Lemma cachedStreams_shape_witness :
  ∃ merged,
    @cachedStreams extAllCached [direct; movie] [rdLookup true] rdOnly !! 1%nat
    = Some merged
    ∧ Stream.title merged = Stream.title movie
    ∧ Stream.behaviorHints merged = Stream.behaviorHints movie
    ∧ ((merged = movie
        ∧ forallb (fun r => negb (reportsCached movie r)) [rdLookup true] = true)
       ∨ (Stream.infoHash merged = None
          ∧ truthy (Stream.url merged) = true
          ∧ ∃ r, r ∈ [rdLookup true] ∧ reportsCached movie r = true)).
Proof.
  refine (proj2 (@cachedStreams_shape extAllCached [direct; movie] [rdLookup true]
                   rdOnly) 1%nat movie _).
  reflexivity.
Defined.

(** X5. Merging is idempotent: applying the same lookups to an already
    merged list changes nothing, so no entry is ever branded twice. *)
Theorem cachedStreams_idempotent `{External} streams mochResults config :
  cachedStreams (cachedStreams streams mochResults config) mochResults config
  = cachedStreams streams mochResults config.
Proof.
  rewrite !cachedStreams_fmap, <- list_fmap_compose.
  apply list_fmap_ext. intros i stream _. cbn.
  destruct (fold_populateCachedLink_cases config mochResults stream)
    as [[Heq Hnone]|(r & e & Hr & He & Hc & Heq)]; cbn zeta in *.
  - by rewrite !Heq.
  - rewrite Heq. by apply fold_populateCachedLink_fixed.
Qed.

(** X6. After merging, the candidates that still carry an identifier are
    exactly the candidates with an identifier that no lookup reports as
    cached, in their order: these are the only ones for which
    [populateDownloadLinks] considers a download entry. *)
Theorem torrentStreams_cachedStreams `{External} streams mochResults config :
  torrentStreams (cachedStreams streams mochResults config)
  = List.filter
      (fun stream =>
         truthy (Stream.infoHash stream)
         && forallb (fun r => negb (reportsCached stream r)) mochResults)
      streams.
Proof.
  rewrite cachedStreams_fmap. unfold torrentStreams.
  induction streams as [|s ss IH]; [reflexivity|].
  cbn [fmap list_fmap List.filter]. rewrite IH. clear IH.
  destruct (fold_populateCachedLink_cases config mochResults s)
    as [[Heq Hnone]|(r & e & Hr & He & Hc & Heq)]; cbn zeta in *; rewrite Heq.
  - rewrite Hnone, andb_true_r. by destruct (truthy (Stream.infoHash s)).
  - cbn. assert (forallb (fun r => negb (reportsCached s r)) mochResults = false)
      as ->; [|by rewrite andb_false_r].
    apply not_true_is_false. intros Hall.
    rewrite forallb_forall in Hall. apply list_elem_of_In in Hr.
    specialize (Hall r Hr). unfold reportsCached, isCached in Hall.
    by rewrite He, Hc in Hall.
Qed.

(** ** What is appended and what is returned *)

Lemma mapM_Completion_Forall2 {A B : Type} (f : A → Completion B) l ys :
  mapM f l = Returns ys → Forall2 (fun x y => f x = Returns y) l ys.
Proof.
  revert ys. induction l as [|x l IH]; intros ys; cbn [mapM].
  - intros [= <-]. constructor.
  - destruct (f x) as [y|] eqn:Hx; [|discriminate]. cbn.
    destruct (mapM f l) as [ys'|]; [|discriminate]. cbn.
    intros [= <-]. constructor; [done|]. by apply IH.
Qed.

Lemma length_omap_id {A : Type} (l : list (option A)) :
  length (omap id l) ≤ length l.
Proof. induction l as [|[x|] l IH]; cbn; lia. Qed.

Section Appending.
Context `{External}.

Lemma pushDownloadLink_Some seeded config stream mochResult pushed :
  pushDownloadLink seeded config stream mochResult = Returns (Some pushed) →
  ∃ entry,
    mochStreams_get (MochLookup.mochStreams mochResult)
      (interpolate (Stream.infoHash stream)) = Some entry
    ∧ CachedEntry.cached entry = false
    ∧ isHealthyStreamForDebrid seeded stream = true
    ∧ pushed = downloadLink stream (MochLookup.moch mochResult) entry config.
Proof.
  unfold pushDownloadLink.
  destruct (mochStreams_get _ _) as [e|]; cbn.
  - destruct (CachedEntry.cached e) eqn:Hc; cbn; [discriminate|].
    destruct (isHealthyStreamForDebrid seeded stream) eqn:Hh; [|discriminate].
    intros [= <-]. by exists e.
  - by destruct (isHealthyStreamForDebrid seeded stream).
Qed.

End Appending.

(** X7. When [populateDownloadLinks] returns, its result is the list it was
    given followed by the appended entries. It appends at most one entry for
    each pair of a candidate with an identifier and a lookup, and each
    appended entry is the download link of such a pair whose candidate is
    healthy, built from the map's own entry for the identifier, which is not
    marked cached, or, when the map has no own entry and the identifier is
    the name of a member of [Object.prototype], from that member, which has
    no url. *)
Theorem populateDownloadLinks_appends `{External} streams mochResults config out :
  populateDownloadLinks streams mochResults config = Returns out →
  ∃ pushed,
    out = streams ++ pushed
    ∧ length pushed ≤ length (torrentStreams streams) * length mochResults
    ∧ ∀ link, link ∈ pushed →
        ∃ stream mochResult entry,
          stream ∈ torrentStreams streams
          ∧ mochResult ∈ mochResults
          ∧ (MochLookup.mochStreams mochResult !! interpolate (Stream.infoHash stream)
             = Some entry
             ∨ (MochLookup.mochStreams mochResult
                !! interpolate (Stream.infoHash stream) = None
                ∧ interpolate (Stream.infoHash stream) ∈ Object_prototype
                ∧ entry = {| CachedEntry.cached := false; CachedEntry.url := None |}))
          ∧ CachedEntry.cached entry = false
          ∧ isHealthyStreamForDebrid (seededStreams streams) stream = true
          ∧ link = downloadLink stream (MochLookup.moch mochResult) entry config.
Proof.
  unfold populateDownloadLinks.
  destruct (mapM _ (torrentStreams streams)) as [yss|] eqn:Hm; [|discriminate].
  cbn. intros [= <-]. eexists. split; [reflexivity|].
  apply mapM_Completion_Forall2 in Hm. split.
  - etrans; [apply length_omap_id|].
    induction Hm as [|s ys l yss Hs _ IH]; [done|].
    change (mjoin (ys :: yss)) with (ys ++ mjoin yss).
    rewrite length_app. cbn [length].
    apply mapM_Completion_Forall2, Forall2_length in Hs.
    rewrite Nat.mul_succ_l. lia.
  - intros link Hlink.
    apply list_elem_of_omap in Hlink as (o & Ho & Hid). cbn in Hid. subst o.
    apply list_elem_of_join in Ho as (ys & Ho & Hys).
    apply list_elem_of_lookup in Hys as [i Hi].
    destruct (Forall2_lookup_r _ _ _ _ _ Hm Hi) as (s & Hs & Hf).
    apply mapM_Completion_Forall2 in Hf.
    apply list_elem_of_lookup in Ho as [j Hj].
    destruct (Forall2_lookup_r _ _ _ _ _ Hf Hj) as (r & Hr & Hp).
    apply pushDownloadLink_Some in Hp as (e & He & Hc & Hh & ->).
    exists s, r, e. split; [by eapply list_elem_of_lookup_2|].
    split; [by eapply list_elem_of_lookup_2|]. split; [|done].
    destruct (mochStreams_get_cases (MochLookup.mochStreams r)
                (interpolate (Stream.infoHash s))) as [[Hget _]|(Hnone & Hinh & Hget)];
      rewrite Hget in He.
    + by left.
    + right. split; [done|]. split; [by apply bool_decide_eq_true in Hinh|].
      by injection He as <-.
Qed.

Lemma populateDownloadLinks_appends_witness :
  ∃ pushed,
    [direct; movie] ++ [@downloadLink extAllCached movie RealDebrid rdUncachedEntry rdOnly]
    = [direct; movie] ++ pushed
    ∧ length pushed ≤ length (torrentStreams [direct; movie]) * length [rdLookup false]
    ∧ ∀ link, link ∈ pushed →
        ∃ stream mochResult entry,
          stream ∈ torrentStreams [direct; movie]
          ∧ mochResult ∈ [rdLookup false]
          ∧ (MochLookup.mochStreams mochResult !! interpolate (Stream.infoHash stream)
             = Some entry
             ∨ (MochLookup.mochStreams mochResult
                !! interpolate (Stream.infoHash stream) = None
                ∧ interpolate (Stream.infoHash stream) ∈ Object_prototype
                ∧ entry = {| CachedEntry.cached := false; CachedEntry.url := None |}))
          ∧ CachedEntry.cached entry = false
          ∧ isHealthyStreamForDebrid (seededStreams [direct; movie]) stream = true
          ∧ link = @downloadLink extAllCached stream (MochLookup.moch mochResult)
                     entry rdOnly.
Proof.
  apply (@populateDownloadLinks_appends extAllCached [direct; movie]
           [rdLookup false] rdOnly).
  vm_compute. reflexivity.
Defined.

(** A candidate whose identifier is "toString" and a provider that answers
    with the empty map: the inherited [toString] stands for the entry, and a
    download link with the url part "undefined" is appended. *)
Example populateDownloadLinks_inherited :
  @populateDownloadLinks extNoEntries [toStringMovie]
    [{| MochLookup.moch := RealDebrid; MochLookup.mochStreams := ∅ |}] rdOnly
  = Returns [toStringMovie;
             {| Stream.infoHash := None;
                Stream.name := lit "[RD download] Movie";
                Stream.title := lit "Movie 1GB";
                Stream.url := Some (lit "http://host/realdebrid/undefined/Movie.mkv");
                Stream.behaviorHints := None |}].
Proof. vm_compute. reflexivity. Qed.

(** X8. Past the fast path and with torrent links not included, every
    stream that [applyMochs] returns carries a non-empty url, be it a
    placeholder, a cached link, a download link or a candidate. *)
Theorem applyMochs_returns_urls `{External} TOKEN_BLACKLIST streams config out :
  streams ≠ [] →
  truthy (hasMochConfigured (Some config)) = true →
  includeTorrentLinks config = false →
  (applyMochs TOKEN_BLACKLIST (Some streams) (Some config)).2 = Returns (Some out) →
  ∀ stream, stream ∈ out → truthy (Stream.url stream) = true.
Proof.
  intros Hss Hcfg Hinc Hout stream Hin.
  pose proof (applyMochs_Returns_own _ _ _ _ Hss Hcfg Hout) as Hown.
  rewrite applyMochs_slow in Hout by done. cbn [snd] in Hout.
  rewrite processMochResults_collected in Hout. cbn zeta in Hout.
  destruct (0 <? length _)%nat.
  - injection Hout as <-.
    apply list_elem_of_fmap in Hin as (m & -> & _). apply placeholder_url.
  - rewrite Hinc in Hout.
    destruct (if excludeDownloadLinks config then _ else _) as [rs|];
      [|discriminate Hout].
    cbn in Hout. injection Hout as <-.
    by apply list_elem_of_In, filter_In in Hin as [_ Hin].
Qed.

Lemma applyMochs_returns_urls_witness :
  truthy (Stream.url (@cachedLink extAllCached movie RealDebrid rdEntry rdThenPm))
  = true.
Proof.
  apply (@applyMochs_returns_urls extAllCached [] [movie] rdThenPm
           [@cachedLink extAllCached movie RealDebrid rdEntry rdThenPm]).
  - discriminate.
  - reflexivity.
  - reflexivity.
  - vm_compute. reflexivity.
  - apply list_elem_of_here.
Defined.

(** X9. Past the fast path and for a configuration none of whose keys names
    a member of [Object.prototype], when no provider considered yields a
    classified error or a lookup map (each call was rejected with an
    unclassified error, or resolved with nothing), [applyMochs] returns the
    candidates themselves, all of them if torrent links are included and
    those with a url otherwise: no placeholder, no link, no error. *)
Theorem applyMochs_unclassified_failures `{External} TOKEN_BLACKLIST streams config :
  streams ≠ [] →
  truthy (hasMochConfigured (Some config)) = true →
  inheritedKeys config = [] →
  (∀ moch, moch ∈ registeredMochs config →
     classified (mochError TOKEN_BLACKLIST streams config moch) = false
     ∧ MochResult.mochStreams (mochResult TOKEN_BLACKLIST streams config moch) = None) →
  (applyMochs TOKEN_BLACKLIST (Some streams) (Some config)).2
  = Returns (Some (if includeTorrentLinks config then streams
                   else List.filter (fun stream => truthy (Stream.url stream))
                          streams)).
Proof.
  intros Hss Hcfg Hown Hall.
  rewrite applyMochs_slow by done. cbn [snd].
  assert (failingMochs TOKEN_BLACKLIST streams config = []) as Hfail.
  { unfold failingMochs.
    induction (registeredMochs config) as [|m l IH]; [done|].
    cbn [List.filter]. destruct (Hall m) as [-> _]; [apply list_elem_of_here|].
    apply IH. intros m' Hm'. apply Hall. by apply list_elem_of_further. }
  rewrite processMochResults_merging by done. cbn zeta.
  assert (omap lookupOf
            (mochResult TOKEN_BLACKLIST streams config <$> registeredMochs config)
          = []) as ->.
  { induction (registeredMochs config) as [|m l IH]; [done|].
    cbn [fmap list_fmap omap list_omap]. unfold lookupOf at 1.
    destruct (Hall m) as [_ ->]; [apply list_elem_of_here|]. cbn.
    apply IH. intros m' Hm'. apply Hall. by apply list_elem_of_further. }
  cbn [cachedStreams fold_left]. rewrite populateDownloadLinks_nil.
  by destruct (excludeDownloadLinks config).
Qed.

Lemma applyMochs_unclassified_failures_witness :
  (@applyMochs extAllOther [] (Some [movie; direct]) (Some rdThenPm)).2
  = Returns (Some [direct]).
Proof.
  refine (@applyMochs_unclassified_failures extAllOther [] [movie; direct]
            rdThenPm _ _ _ _).
  - discriminate.
  - reflexivity.
  - reflexivity.
  - intros moch Hm. vm_compute in Hm.
    repeat (apply elem_of_cons in Hm as [->|Hm]; [by split|]).
    by apply elem_of_nil in Hm.
Defined.

(** ** When the aggregation throws *)

Lemma mochStreams_get_is_Some (mochStreams : MochStreams) k :
  is_Some (mochStreams_get mochStreams k)
  ↔ is_Some (mochStreams !! k) ∨ k ∈ Object_prototype.
Proof.
  unfold mochStreams_get, lookupMember, array_includes.
  destruct (mochStreams !! k) as [entry|].
  - split; [by left|by eexists].
  - destruct (decide (k ∈ Object_prototype)) as [Hk|Hk].
    + rewrite bool_decide_eq_true_2 by done. split; [by right|by eexists].
    + rewrite bool_decide_eq_false_2 by done.
      split; [by intros [x [=]]|]. by intros [[x [=]]|Hk'].
Qed.

Section Throwing.
Context `{External}.

Lemma pushDownloadLink_Returns_iff seeded config stream mochResult :
  (∃ pushed, pushDownloadLink seeded config stream mochResult = Returns pushed)
  ↔ (isHealthyStreamForDebrid seeded stream = true →
     is_Some (mochStreams_get (MochLookup.mochStreams mochResult)
                (interpolate (Stream.infoHash stream)))).
Proof.
  unfold pushDownloadLink.
  destruct (mochStreams_get _ _) as [e|]; cbn.
  - split; [by eexists|]. intros _. destruct (_ && _); by eexists.
  - destruct (isHealthyStreamForDebrid seeded stream); split.
    + by intros [pushed [=]].
    + intros Hsome. destruct Hsome as [x Hx]; [done|discriminate Hx].
    + done.
    + by eexists.
Qed.

Lemma mapM_Completion_Returns_iff {A B : Type} (f : A → Completion B) l :
  (∃ ys, mapM f l = Returns ys) ↔ ∀ x, x ∈ l → ∃ y, f x = Returns y.
Proof.
  split.
  - intros [ys Hys] x Hx. apply mapM_Completion_Forall2 in Hys.
    apply list_elem_of_lookup in Hx as [i Hi].
    destruct (Forall2_lookup_l _ _ _ _ _ Hys Hi) as (y & _ & Hy). by exists y.
  - induction l as [|x l IH]; intros Hall; cbn [mapM]; [by eexists|].
    destruct (Hall x) as [y ->]; [apply list_elem_of_here|].
    destruct IH as [ys ->]; [|by eexists].
    intros x' Hx'. apply Hall. by apply list_elem_of_further.
Qed.

End Throwing.

(** X10. [populateDownloadLinks] returns exactly when, for every healthy
    candidate with an identifier and every lookup, the map has an entry for
    that identifier or the identifier is the name of a member of
    [Object.prototype]; otherwise, that is as soon as one lookup has nothing
    under the identifier of one such candidate, it throws and nothing is
    returned. *)
Theorem populateDownloadLinks_returns_iff `{External} streams mochResults config :
  (∃ out, populateDownloadLinks streams mochResults config = Returns out)
  ↔ ∀ stream mochResult,
      stream ∈ torrentStreams streams → mochResult ∈ mochResults →
      isHealthyStreamForDebrid (seededStreams streams) stream = true →
      is_Some (MochLookup.mochStreams mochResult
               !! interpolate (Stream.infoHash stream))
      ∨ interpolate (Stream.infoHash stream) ∈ Object_prototype.
Proof.
  unfold populateDownloadLinks. split.
  - intros [out Hout] stream r Hs Hr Hh.
    destruct (mapM _ (torrentStreams streams)) as [yss|] eqn:Hm; [|discriminate].
    assert (∃ ys, mapM (fun stream =>
                          mapM (pushDownloadLink (seededStreams streams) config stream)
                            mochResults) (torrentStreams streams) = Returns ys)
      as Hex by by eexists.
    rewrite mapM_Completion_Returns_iff in Hex.
    specialize (Hex stream Hs). rewrite mapM_Completion_Returns_iff in Hex.
    apply mochStreams_get_is_Some.
    apply (proj1 (pushDownloadLink_Returns_iff (seededStreams streams) config
                    stream r)); [|done].
    by apply Hex.
  - intros Hall.
    assert (∃ ys, mapM (fun stream =>
                          mapM (pushDownloadLink (seededStreams streams) config stream)
                            mochResults) (torrentStreams streams) = Returns ys)
      as [ys ->]; [|by eexists].
    apply mapM_Completion_Returns_iff. intros stream Hs.
    apply mapM_Completion_Returns_iff. intros r Hr.
    apply (proj2 (pushDownloadLink_Returns_iff (seededStreams streams) config
                    stream r)).
    intros Hh. apply mochStreams_get_is_Some. by apply Hall.
Qed.

Lemma populateDownloadLinks_returns_iff_witness :
  ∃ out, @populateDownloadLinks extAllCached [movie; direct] [rdLookup false] rdOnly
         = Returns out.
Proof.
  refine (proj2 (@populateDownloadLinks_returns_iff extAllCached [movie; direct]
                   [rdLookup false] rdOnly) _).
  intros stream r Hs Hr _. vm_compute in Hs.
  apply list_elem_of_singleton in Hs as ->.
  apply list_elem_of_singleton in Hr as ->.
  left. vm_compute. by eexists.
Defined.

(** X11. For a configuration that excludes download links, [applyMochs]
    throws exactly when it is past the fast path and a key of the
    configuration names a member of [Object.prototype], and it returns in
    every other case, whatever the candidates, the blacklist and the
    providers' answers: with download links excluded, no other [TypeError]
    of an aggregation is left. *)
Theorem applyMochs_no_download_links_throws_iff `{External} TOKEN_BLACKLIST streams
    config :
  excludeDownloadLinks config = true →
  ((applyMochs TOKEN_BLACKLIST streams (Some config)).2 = Throws TypeError
   ↔ noLength streams = false
     ∧ truthy (hasMochConfigured (Some config)) = true
     ∧ inheritedKeys config ≠ [])
  ∧ ((∃ out, (applyMochs TOKEN_BLACKLIST streams (Some config)).2 = Returns out)
     ↔ noLength streams = true
       ∨ truthy (hasMochConfigured (Some config)) = false
       ∨ inheritedKeys config = []).
Proof.
  intros Hex.
  assert (noLength streams = true
          ∨ truthy (hasMochConfigured (Some config)) = false
          ∨ inheritedKeys config = [] →
          ∃ out, (applyMochs TOKEN_BLACKLIST streams (Some config)).2 = Returns out)
    as Hret.
  { intros Hcase.
    destruct streams as [[|s ss]|]; try by eexists.
    destruct (truthy (hasMochConfigured (Some config))) eqn:Hcfg; cycle 1.
    { unfold applyMochs. rewrite Hcfg. by eexists. }
    destruct Hcase as [[=]|[[=]|Hown]].
    rewrite applyMochs_slow by done. cbn [snd].
    rewrite processMochResults_collected. cbn zeta.
    destruct (0 <? length _)%nat; [by eexists|].
    rewrite Hex. cbn. by eexists. }
  assert (noLength streams = false
          ∧ truthy (hasMochConfigured (Some config)) = true
          ∧ inheritedKeys config ≠ [] →
          (applyMochs TOKEN_BLACKLIST streams (Some config)).2 = Throws TypeError)
    as Hthrow.
  { intros (Hlen & Hcfg & Hinh).
    destruct streams as [[|s ss]|]; try discriminate Hlen.
    by apply applyMochs_inherited_throws. }
  split; (split; [|done]).
  - intros Hout.
    destruct (noLength streams) eqn:Hlen;
      [destruct Hret as [out Hret]; [by left|congruence]|].
    destruct (truthy (hasMochConfigured (Some config))) eqn:Hcfg;
      [|destruct Hret as [out Hret]; [by right; left|congruence]].
    split; [done|]. split; [done|]. intros Hown.
    destruct Hret as [out Hret]; [by right; right|congruence].
  - intros [out Hout].
    destruct (noLength streams) eqn:Hlen; [by left|].
    destruct (truthy (hasMochConfigured (Some config))) eqn:Hcfg; [|by right; left].
    right. right. destruct (inheritedKeys config) as [|k l] eqn:Hinh; [done|].
    rewrite Hthrow in Hout; [discriminate Hout|done].
Qed.

Lemma applyMochs_no_download_links_throws_iff_witness :
  ∃ out, (@applyMochs (sampleExternal noEntries Pending true) []
            (Some [movie]) (Some rdOnly)).2 = Returns out.
Proof.
  refine (proj2 (proj2 (@applyMochs_no_download_links_throws_iff
                          (sampleExternal noEntries Pending true) []
                          (Some [movie]) rdOnly _)) _).
  - reflexivity.
  - right. right. reflexivity.
Defined.

(** With the key "constructor" in the configuration, the same aggregation
    throws after RealDebrid has been called. *)
Example applyMochs_no_download_links_inherited :
  @applyMochs (sampleExternal noEntries Pending true) [] (Some [movie])
    (Some rdThenConstructor)
  = ([GetCachedStreams realdebrid sampleToken], Throws TypeError).
Proof. vm_compute. reflexivity. Qed.

(** ** More on the resolver *)


(** ** The deduplication id *)

Lemma lit_inj s1 s2 : lit s1 = lit s2 → s1 = s2.
Proof.
  revert s2. induction s1 as [|a s1 IH]; intros [|b s2]; cbn; try done.
  intros [= Hab Hs]. f_equal; [|by apply IH].
  by rewrite <- (ascii_N_embedding a), <- (ascii_N_embedding b), Hab.
Qed.

Lemma to_int_parses z :
  NilZero.int_of_string (NilZero.string_of_int (Z.to_int z)) = Some (Z.to_int z).
Proof.
  apply NilZero.isi; destruct z; cbn; try discriminate; intros [= Hp];
    by apply DecimalPos.Unsigned.to_uint_nonnil in Hp.
Qed.

(** The decimal form tells the file indices apart, and tells each of them
    from [undefined]. *)
Lemma interpolateInt_inj v1 v2 : interpolateInt v1 = interpolateInt v2 → v1 = v2.
Proof.
  destruct v1 as [z1|], v2 as [z2|]; unfold interpolateInt; intros Heq;
    apply lit_inj in Heq.
  - f_equal. apply DecimalZ.to_int_inj.
    pose proof (to_int_parses z1) as H1. rewrite Heq, to_int_parses in H1.
    by injection H1.
  - pose proof (to_int_parses z1) as H1. rewrite Heq in H1. discriminate H1.
  - pose proof (to_int_parses z2) as H2. rewrite <- Heq in H2. discriminate H2.
  - done.
Qed.

(** A string without separator is recovered from what follows it. *)
Lemma split_at_separator a a' r r' :
  noUnderscore a = true → noUnderscore a' = true →
  a ++ lit "_" ++ r = a' ++ lit "_" ++ r' → a = a' ∧ r = r'.
Proof.
  revert a'. induction a as [|c a IH]; intros [|c' a']; cbn.
  - intros _ _ [= ->]. done.
  - intros _ Hc [= <- _]. done.
  - intros Hc _ [= -> _]. done.
  - intros Hc Hc' [= -> Heq].
    apply andb_true_iff in Hc as [_ Hc]. apply andb_true_iff in Hc' as [_ Hc'].
    destruct (IH a' Hc Hc' Heq) as [-> ->]. done.
Qed.

(** X13. Two requests none of whose fields [ip], [mochKey], [apiKey] and
    [infoHash] holds a "_" have the same deduplication id only if they
    agree, as interpolated, on these four fields and have the same
    [fileIndex]. *)
Theorem resolveId_injective (p q : Parameters.t) :
  underscoreFree p = true → underscoreFree q = true →
  resolveId p = resolveId q →
  interpolate (Parameters.ip p) = interpolate (Parameters.ip q)
  ∧ interpolate (Parameters.mochKey p) = interpolate (Parameters.mochKey q)
  ∧ interpolate (Parameters.apiKey p) = interpolate (Parameters.apiKey q)
  ∧ interpolate (Parameters.infoHash p) = interpolate (Parameters.infoHash q)
  ∧ Parameters.fileIndex p = Parameters.fileIndex q.
Proof.
  unfold underscoreFree, resolveId. rewrite !andb_true_iff.
  intros [[[Hp1 Hp2] Hp3] Hp4] [[[Hq1 Hq2] Hq3] Hq4] Heq.
  apply split_at_separator in Heq as [-> Heq]; [|done..].
  apply split_at_separator in Heq as [-> Heq]; [|done..].
  apply split_at_separator in Heq as [-> Heq]; [|done..].
  apply split_at_separator in Heq as [-> Heq]; [|done..].
  by apply interpolateInt_inj in Heq as ->.
Qed.

Lemma resolveId_injective_witness :
  interpolate (Parameters.ip sampleParameters)
  = interpolate (Parameters.ip sameIdParameters)
  ∧ interpolate (Parameters.mochKey sampleParameters)
    = interpolate (Parameters.mochKey sameIdParameters)
  ∧ interpolate (Parameters.apiKey sampleParameters)
    = interpolate (Parameters.apiKey sameIdParameters)
  ∧ interpolate (Parameters.infoHash sampleParameters)
    = interpolate (Parameters.infoHash sameIdParameters)
  ∧ Parameters.fileIndex sampleParameters = Parameters.fileIndex sameIdParameters.
Proof.
  apply (resolveId_injective sampleParameters sameIdParameters); reflexivity.
Defined.

(** Requests for different files of one torrent have different ids. *)
Lemma resolveId_other_file :
  resolveId sampleParameters ≠ resolveId otherParameters.
Proof. vm_compute. discriminate. Qed.

(** With a "_" in a field, requests for different content can share an id,
    and with it a queue slot and a cache entry. *)
Example resolveId_collision :
  resolveId {| Parameters.ip := None; Parameters.mochKey := Some (lit "putio");
               Parameters.apiKey := Some (lit "key_0123456789abcdef");
               Parameters.infoHash := Some (lit "abc");
               Parameters.fileIndex := None;
               Parameters.cachedEntryInfo := None; Parameters.host := None |}
  = resolveId {| Parameters.ip := None; Parameters.mochKey := Some (lit "putio");
                 Parameters.apiKey := Some (lit "key");
                 Parameters.infoHash := Some (lit "0123456789abcdef_abc");
                 Parameters.fileIndex := None;
                 Parameters.cachedEntryInfo := None; Parameters.host := None |}.
Proof. reflexivity. Qed.

(** ** The catalog and the blacklist *)

(** X14. Once an aggregation has made the call of a provider of the
    registry and the provider has rejected it with [BadTokenError],
    [getMochCatalog] for that provider and credential, with a blacklist that
    still holds what the blacklist held then, rejects with
    "Invalid API key for moch provider: <key>" and sends no request;
    [getMochItemMeta], which does not consult the guard, still sends its
    request to the provider with that credential. *)
Theorem getMochCatalog_blacklisted `{External} `{ExternalCatalog} TOKEN_BLACKLIST
    streams config moch token TOKEN_BLACKLIST' config' itemId :
  assoc MochOptions (Moch.key moch) = Some moch →
  GetCachedStreams (Moch.instance moch) token
  ∈ (applyMochs TOKEN_BLACKLIST (Some streams) (Some config)).1 →
  getCachedStreams (Moch.instance moch) streams token = Rejects BadTokenError →
  blacklistAfter TOKEN_BLACKLIST
    (applyMochs TOKEN_BLACKLIST (Some streams) (Some config)).1
  ⊆ TOKEN_BLACKLIST' →
  assoc (Config.props config') (Moch.key moch) = Some token →
  getMochCatalog TOKEN_BLACKLIST' (Moch.key moch) config'
  = ([], Fails (RejectError
                  (lit "Invalid API key for moch provider: " ++ Moch.key moch)))
  ∧ (getMochItemMeta (Moch.key moch) itemId config').1
    = [GetItemMeta (Moch.instance moch) itemId (Some token)
         (assoc (Config.props config') (lit "ip"))].
Proof.
  intros Hreg Hcall Hrej Hsub Htok'.
  pose proof (applyMochs_blacklists_called _ _ _ _ _ Hreg Hcall Hrej) as Hbl.
  unfold getMochCatalog, getMochItemMeta. rewrite Hreg, Htok'. split; [|done].
  assert (isInvalidToken TOKEN_BLACKLIST' token (Moch.key moch) = true) as ->; [|done].
  unfold isInvalidToken. apply orb_true_iff. right.
  apply bool_decide_eq_true, Hsub. unfold blacklistAfter.
  apply elem_of_app. right. apply list_elem_of_omap. by eexists.
Qed.

Lemma getMochCatalog_blacklisted_witness :
  @getMochCatalog sampleCatalog
    (blacklistAfter [] (@applyMochs extRdBadToken [] (Some [movie]) (Some rdOnly)).1)
    (Moch.key RealDebrid) rdThenPm
  = ([], Fails (RejectError
                  (lit "Invalid API key for moch provider: " ++ Moch.key RealDebrid)))
  ∧ (@getMochItemMeta sampleCatalog (Moch.key RealDebrid) (lit "item") rdThenPm).1
    = [GetItemMeta (Moch.instance RealDebrid) (lit "item") (Some sampleToken)
         (assoc (Config.props rdThenPm) (lit "ip"))].
Proof.
  apply (@getMochCatalog_blacklisted extRdBadToken sampleCatalog [] [movie] rdOnly
           RealDebrid sampleToken).
  - reflexivity.
  - vm_compute. apply list_elem_of_here.
  - reflexivity.
  - done.
  - reflexivity.
Defined.

(** Without blacklist entry and with a credential of sufficient length, the
    catalog request goes to the provider, also for Put.io, whose descriptor
    says [catalog: false]. *)
Example getMochCatalog_putio :
  @getMochCatalog sampleCatalog [] (lit "putio")
    (configOf [(lit "putio", sampleToken); (lit "skip", lit "100")])
  = ([GetCatalog putio (Some sampleToken) (Some (lit "100")) None], Fulfils []).
Proof. reflexivity. Qed.

(** ** Rewriting the stream urls of an item *)

Lemma startsWith_app s s' p :
  startsWith s p = true → startsWith (s ++ s') p = true.
Proof.
  revert s. induction p as [|a p IH]; [intros s _; by destruct (s ++ s')|].
  intros [|b s]; cbn; [done|].
  intros Hs. apply andb_true_iff in Hs as [-> Hs]. cbn. by apply IH.
Qed.

Lemma filter_eq_positive {A : Type} `{EqDecision A} (x : A) (l : list A) :
  x ∈ l → 0 < length (List.filter (fun y => bool_decide (y = x)) l).
Proof.
  induction 1 as [x l|x y l Hx IH]; cbn [List.filter].
  - rewrite bool_decide_eq_true_2 by done. cbn. lia.
  - destruct (bool_decide _); cbn; [lia|done].
Qed.

Section Rewriting.
Implicit Types (meta : ItemMeta.t) (urls : gmap N jsstring).

(** The number of times [ref] occurs in a list of stream objects. *)
Local Abbreviation occurrences ref l :=
  (length (List.filter (fun r => bool_decide (r = ref)) l)).

(** What the filter keeps: stream objects with a url that is relative, as
    often as they are listed. *)
Lemma relativeStreams_inv meta kept :
  relativeStreams meta = Returns kept →
  ∃ videos,
    ItemMeta.videos meta = Some videos
    ∧ (∀ stream, stream ∈ allStreams videos →
         ∃ ref url, stream = Some ref ∧ ItemMeta.url meta !! ref = Some url)
    ∧ (∀ ref, ref ∈ kept → is_Some (ItemMeta.url meta !! ref))
    ∧ (∀ ref url, ItemMeta.url meta !! ref = Some url →
         occurrences ref kept
         = if startsWith url (lit "http") then 0 else listed meta ref).
Proof.
  unfold relativeStreams, listed. generalize (lit "http"). intros http.
  destruct (ItemMeta.videos meta) as [videos|]; [|discriminate].
  destruct (mapM _ (allStreams videos)) as [ks|] eqn:Hm; [|discriminate].
  cbv [mbind Completion_bind mret Completion_ret]. intros [= <-].
  exists videos. split; [done|].
  apply mapM_Completion_Forall2 in Hm.
  induction Hm as [|o k l ks Hk _ (IH1 & IH2 & IH3)].
  - split; [intros o Ho; by apply elem_of_nil in Ho|].
    split; [intros r Hr; by apply elem_of_nil in Hr|].
    intros ref url _. by destruct (startsWith url http).
  - destruct o as [r|]; [|discriminate Hk].
    destruct (ItemMeta.url meta !! r) as [u|] eqn:Hu; [|discriminate Hk].
    injection Hk as <-. split; [|split].
    + intros o Ho. apply elem_of_cons in Ho as [->|Ho]; [by exists r, u|by apply IH1].
    + intros ref Hr. destruct (startsWith u http); cbn in Hr; [by apply IH2|].
      apply elem_of_cons in Hr as [->|Hr]; [by rewrite Hu|by apply IH2].
    + intros ref url Hurl. specialize (IH3 ref url Hurl).
      cbn [List.filter].
      destruct (decide (r = ref)) as [->|Hne].
      * rewrite Hu in Hurl. injection Hurl as ->.
        rewrite bool_decide_eq_true_2 by done.
        destruct (startsWith url http); cbn; [done|].
        rewrite bool_decide_eq_true_2 by done. cbn. by rewrite IH3.
      * rewrite (bool_decide_eq_false_2 (Some r = Some ref)) by congruence.
        destruct (startsWith u http); cbn; [done|].
        by rewrite bool_decide_eq_false_2.
Qed.

(** The assignments in a row: a stream object is rewritten once for each of
    its occurrences. *)
Lemma fold_rewriteUrl config moch kept urls ref :
  (∀ r, r ∈ kept → is_Some (urls !! r)) →
  fold_left (rewriteUrl config moch) kept urls !! ref
  = Nat.iter (occurrences ref kept) (resolveUrl config moch) <$> urls !! ref.
Proof.
  revert urls. induction kept as [|r kept IH]; intros urls Hall.
  - cbn. by destruct (urls !! ref).
  - cbn [fold_left List.filter]. rewrite IH.
    + unfold rewriteUrl. destruct (decide (r = ref)) as [->|Hne].
      * rewrite lookup_insert_eq, bool_decide_eq_true_2 by done.
        destruct (Hall ref) as [u Hu]; [apply list_elem_of_here|].
        rewrite Hu. cbn [fmap option_fmap option_map length interpolate].
        by rewrite Nat.iter_succ_r.
      * rewrite lookup_insert_ne, bool_decide_eq_false_2 by done. done.
    + intros r' Hr'. unfold rewriteUrl.
      destruct (decide (r = r')) as [->|Hne].
      * by rewrite lookup_insert_eq.
      * rewrite lookup_insert_ne by done. apply Hall. by apply list_elem_of_further.
Qed.

End Rewriting.

(** X15. When the rewriting of an item's stream urls returns, the videos are
    as before, and the url of every stream object is its former url with
    "<host>/<key>/" put in front once for each time the videos list the
    object, if that url did not start with "http"; it is unchanged if the
    url started with "http" or no video lists the object. So a stream
    listed once gets the prefix once, and a stream object shared by several
    videos gets it several times. *)
Theorem rewriteStreamUrls_urls config moch meta meta' :
  rewriteStreamUrls config moch meta = Returns meta' →
  ItemMeta.videos meta' = ItemMeta.videos meta
  ∧ ∀ ref,
      ItemMeta.url meta' !! ref
      = (fun url =>
           Nat.iter (if startsWith url (lit "http") then 0 else listed meta ref)
             (resolveUrl config moch) url)
        <$> ItemMeta.url meta !! ref.
Proof.
  unfold rewriteStreamUrls.
  destruct (relativeStreams meta) as [kept|] eqn:Hk; [|discriminate].
  cbn. intros [= <-]. split; [done|]. intros ref. cbn.
  apply relativeStreams_inv in Hk as (videos & _ & _ & Hsome & Hcount).
  rewrite fold_rewriteUrl by done.
  destruct (ItemMeta.url meta !! ref) as [u|] eqn:Hu; [|done].
  cbn. by rewrite (Hcount ref u Hu).
Qed.

Lemma rewriteStreamUrls_urls_witness :
  ItemMeta.url
    {| ItemMeta.videos := ItemMeta.videos sharedMeta;
       ItemMeta.url :=
         {[ 1%N := lit "http://host/realdebrid/http://host/realdebrid/token/abc/0";
            2%N := lit "https://cdn/b.mkv" ]} |} !! 1%N
  = (fun url =>
       Nat.iter (if startsWith url (lit "http") then 0 else listed sharedMeta 1%N)
         (resolveUrl rdOnly RealDebrid) url)
    <$> ItemMeta.url sharedMeta !! 1%N.
Proof.
  refine (proj2 (rewriteStreamUrls_urls rdOnly RealDebrid sharedMeta
                   _ _) 1%N).
  vm_compute. reflexivity.
Defined.

(** X16. When the host starts with "http", rewriting is idempotent: a
    second run over the rewritten item changes nothing, because every
    listed stream then has a url that starts with "http". *)
Theorem rewriteStreamUrls_idempotent config moch meta meta' :
  startsWith (interpolate (Config.host config)) (lit "http") = true →
  rewriteStreamUrls config moch meta = Returns meta' →
  rewriteStreamUrls config moch meta' = Returns meta'.
Proof.
  intros Hhost Hrun.
  unfold rewriteStreamUrls in Hrun.
  destruct (relativeStreams meta) as [kept|] eqn:Hk; [|discriminate].
  cbn in Hrun. injection Hrun as <-.
  pose proof (relativeStreams_inv _ _ Hk) as (videos & Hv & Hall & Hsome & Hcount).
  unfold rewriteStreamUrls.
  assert (relativeStreams
            {| ItemMeta.videos := ItemMeta.videos meta;
               ItemMeta.url := fold_left (rewriteUrl config moch) kept
                                 (ItemMeta.url meta) |}
          = Returns []) as ->; [|reflexivity].
  unfold relativeStreams. cbn [ItemMeta.videos ItemMeta.url]. rewrite Hv.
  rewrite (mapM_Completion_Returns _ (fun _ => None)); [|apply Forall_forall].
  - cbn. f_equal. clear. induction (allStreams videos) as [|o l IH]; [done|].
    cbn. apply IH.
  - intros o Ho. destruct (Hall o Ho) as (ref & u & -> & Hu).
    rewrite fold_rewriteUrl by done. rewrite Hu.
    cbn [fmap option_fmap option_map]. rewrite (Hcount ref u Hu).
    destruct (startsWith u (lit "http")) eqn:Hhttp.
    + cbn [Nat.iter nat_rect]. by rewrite Hhttp.
    + assert (0 < listed meta ref) as Hpos.
      { unfold listed. rewrite Hv. by apply filter_eq_positive. }
      destruct (listed meta ref) as [|n]; [lia|].
      cbn [Nat.iter nat_rect]. unfold resolveUrl at 1.
      by rewrite startsWith_app.
Qed.

Lemma rewriteStreamUrls_idempotent_witness :
  rewriteStreamUrls rdOnly RealDebrid
    {| ItemMeta.videos := ItemMeta.videos sampleMeta;
       ItemMeta.url := {[ 1%N := lit "http://host/realdebrid/token/abc/0";
                          2%N := lit "https://cdn/b.mkv" ]} |}
  = Returns
      {| ItemMeta.videos := ItemMeta.videos sampleMeta;
         ItemMeta.url := {[ 1%N := lit "http://host/realdebrid/token/abc/0";
                            2%N := lit "https://cdn/b.mkv" ]} |}.
Proof.
  apply (rewriteStreamUrls_idempotent rdOnly RealDebrid sampleMeta).
  - reflexivity.
  - vm_compute. reflexivity.
Defined.

Lemma allStreams_elem (videos : list Video.t) (stream : option N) :
  stream ∈ allStreams videos
  ↔ ∃ video, video ∈ videos
             ∧ match Video.streams video with
               | Some streams => ∃ ref, ref ∈ streams ∧ stream = Some ref
               | None => stream = None
               end.
Proof.
  unfold allStreams. rewrite list_elem_of_join. split.
  - intros (l & Hs & Hl). apply list_elem_of_fmap in Hl as (video & -> & Hv).
    exists video. split; [done|].
    destruct (Video.streams video) as [streams|].
    + apply list_elem_of_fmap in Hs as (ref & -> & Hr). by exists ref.
    + by apply list_elem_of_singleton in Hs.
  - intros (video & Hv & Hs). eexists. split; [|apply list_elem_of_fmap; by exists video].
    destruct (Video.streams video) as [streams|].
    + destruct Hs as (ref & Hr & ->). apply list_elem_of_fmap. by exists ref.
    + subst. apply list_elem_of_here.
Qed.

(** X17. The rewriting of an item's stream urls returns exactly when the
    item has videos, every video has streams and every listed stream has a
    url; in every other case it throws, and [getMochItemMeta] rejects. *)
Theorem rewriteStreamUrls_returns_iff config moch meta :
  (∃ meta', rewriteStreamUrls config moch meta = Returns meta')
  ↔ ∃ videos,
      ItemMeta.videos meta = Some videos
      ∧ ∀ video, video ∈ videos →
          ∃ streams,
            Video.streams video = Some streams
            ∧ ∀ ref, ref ∈ streams → is_Some (ItemMeta.url meta !! ref).
Proof.
  unfold rewriteStreamUrls, relativeStreams.
  destruct (ItemMeta.videos meta) as [videos|]; cycle 1.
  { split; [by intros [meta' [=]]|by intros (videos & [=] & _)]. }
  set (keep := fun stream : option N => _).
  assert ((∃ ks, mapM keep (allStreams videos) = Returns ks)
          ↔ ∀ video, video ∈ videos →
              ∃ streams,
                Video.streams video = Some streams
                ∧ ∀ ref, ref ∈ streams → is_Some (ItemMeta.url meta !! ref))
    as Hiff.
  { rewrite mapM_Completion_Returns_iff. split.
    - intros Hall video Hv.
      destruct (Video.streams video) as [streams|] eqn:Hs.
      + exists streams. split; [done|]. intros ref Hr.
        destruct (Hall (Some ref)) as [k Hk].
        { apply allStreams_elem. exists video. split; [done|].
          rewrite Hs. by exists ref. }
        subst keep. cbv beta iota in Hk.
        by destruct (ItemMeta.url meta !! ref).
      + destruct (Hall None) as [k Hk]; [|discriminate Hk].
        apply allStreams_elem. exists video. by rewrite Hs.
    - intros Hall stream Hs.
      apply allStreams_elem in Hs as (video & Hv & Hs).
      destruct (Hall video Hv) as (streams & Hst & Hurl). rewrite Hst in Hs.
      destruct Hs as (ref & Hr & ->). destruct (Hurl ref Hr) as [u Hu].
      subst keep. cbv beta iota. rewrite Hu. by eexists. }
  split.
  - intros [meta' Hret]. exists videos. split; [done|]. apply Hiff.
    destruct (mapM keep (allStreams videos)) as [ks|]; [by eexists|discriminate Hret].
  - intros (videos' & [= <-] & Hall). apply Hiff in Hall as [ks ->]. by eexists.
Qed.

Lemma rewriteStreamUrls_returns_iff_witness :
  ∃ meta', rewriteStreamUrls rdOnly RealDebrid sampleMeta = Returns meta'.
Proof.
  refine (proj2 (rewriteStreamUrls_returns_iff rdOnly RealDebrid sampleMeta) _).
  eexists. split; [reflexivity|]. intros video Hv.
  repeat (apply elem_of_cons in Hv as [->|Hv];
          [eexists; split; [reflexivity|];
           intros ref Hr; apply list_elem_of_singleton in Hr as ->;
           vm_compute; by eexists|]).
  by apply elem_of_nil in Hv.
Defined.

(** An item whose stream 3 has no url: the request is sent and the promise
    rejects with the [TypeError]. *)
Example getMochItemMeta_no_url :
  @getMochItemMeta
    {| getCatalog := fun _ _ _ _ => Fulfils [];
       getItemMeta := fun _ _ _ _ =>
         Fulfils {| ItemMeta.videos := Some [ {| Video.streams := Some [3%N] |} ];
                    ItemMeta.url := ∅ |};
       enrichMeta := fun meta => Fulfils meta |}
    (lit "realdebrid") (lit "item") rdOnly
  = ([GetItemMeta realdebrid (lit "item") (Some sampleToken) None],
     Fails RejectTypeError).
Proof. reflexivity. Qed.

(** The item of the sample provider: the relative url is resolved against
    the host and the provider, the absolute one is kept. *)
Example getMochItemMeta_sample :
  (@getMochItemMeta sampleCatalog (lit "realdebrid") (lit "item") rdOnly).2
  = Fulfils {| ItemMeta.videos := ItemMeta.videos sampleMeta;
               ItemMeta.url :=
                 {[ 1%N := lit "http://host/realdebrid/token/abc/0";
                    2%N := lit "https://cdn/b.mkv" ]} |}.
Proof. vm_compute. reflexivity. Qed.

(** ** The name clean-up *)

Lemma includes_drop s p :
  includes s p = true ↔ ∃ i, startsWith (drop i s) p = true.
Proof.
  induction s as [|c s IH]; cbn [includes].
  - rewrite orb_false_r. split; [by exists 0|]. intros [i Hi]. by rewrite drop_nil in Hi.
  - rewrite orb_true_iff, IH. split.
    + intros [H0|[i Hi]]; [by exists 0|by exists (S i)].
    + intros [[|i] Hi]; [by left|right; by exists i].
Qed.

Lemma parseNameFrom_sublist skip name : sublist (parseNameFrom skip name) name.
Proof.
  revert skip. induction name as [|c rest IH]; intros skip; cbn [parseNameFrom].
  - constructor.
  - destruct skip as [|k]; [|by constructor].
    destruct (isSeasonTag (c :: rest)); by constructor.
Qed.

Lemma parseName_no_tag name :
  (∀ i, isSeasonTag (drop i name) = false) → parseName name = name.
Proof.
  unfold parseName. induction name as [|c rest IH]; intros Hno; [done|].
  cbn [parseNameFrom]. pose proof (Hno 0) as H0. cbn [drop] in H0.
  rewrite H0. f_equal. apply IH.
  intros i. apply (Hno (S i)).
Qed.

Lemma parseName_tag name i :
  isSeasonTag (drop i name) = true → length (parseName name) < length name.
Proof.
  unfold parseName. revert i. induction name as [|c rest IH]; intros i Htag.
  - by rewrite drop_nil in Htag.
  - cbn [parseNameFrom]. destruct (isSeasonTag (c :: rest)) eqn:H0.
    + pose proof (sublist_length _ _ (parseNameFrom_sublist 2 rest)). cbn. lia.
    + destruct i as [|i]; [cbn [drop] in Htag; congruence|].
      cbn. specialize (IH i Htag). lia.
Qed.

(** X18. The name clean-up of the scraper only removes code units: its
    result is a sublist of the name. It leaves the name as it is exactly
    when the name contains none of "S01", ..., "S09". *)
Theorem parseName_removes_tags (name : jsstring) :
  sublist (parseName name) name
  ∧ (parseName name = name
     ↔ ∀ tag, tag ∈ seasonTags → includes name tag = false).
Proof.
  split; [apply parseNameFrom_sublist|]. split.
  - intros Heq tag Htag. apply not_true_is_false. intros Hinc.
    apply includes_drop in Hinc as [i Hi].
    assert (isSeasonTag (drop i name) = true) as Hs.
    { unfold isSeasonTag. apply existsb_exists. exists tag.
      split; [by apply list_elem_of_In|done]. }
    apply parseName_tag in Hs. rewrite Heq in Hs. lia.
  - intros Hno. apply parseName_no_tag. intros i.
    apply not_true_is_false. intros Hs. unfold isSeasonTag in Hs.
    apply existsb_exists in Hs as (tag & Htag & Hstart).
    apply list_elem_of_In in Htag.
    assert (includes name tag = true) as Hinc by (apply includes_drop; by exists i).
    by rewrite (Hno tag Htag) in Hinc.
Qed.

(** The clean-up of "The Show S02 Dual" and of a name in which removing one
    tag brings the next one about. *)
Example parseName_show : parseName (lit "The Show S02 Dual") = lit "The Show  Dual".
Proof. reflexivity. Qed.

Example parseName_leaves_tag : parseName (lit "SS0101E02") = lit "S01E02".
Proof. reflexivity. Qed.

(** ** Which provider counts as configured *)

Lemma find_first {A : Type} (f : A → bool) (l : list A) (x : A) :
  List.find f l = Some x
  ↔ ∃ before after,
      l = before ++ x :: after ∧ f x = true ∧ ∀ y, y ∈ before → f y = false.
Proof.
  induction l as [|a l IH]; cbn [List.find].
  - split; [discriminate|]. intros (before & after & Heq & _). by destruct before.
  - destruct (f a) eqn:Ha.
    + split.
      * intros [= ->]. exists [], l. split; [done|]. split; [done|].
        intros y Hy. by apply elem_of_nil in Hy.
      * intros ([|b before] & after & Heq & Hx & Hb).
        -- by injection Heq as ->.
        -- injection Heq as -> _. rewrite Hb in Ha; [discriminate|apply list_elem_of_here].
    + rewrite IH. split.
      * intros (before & after & -> & Hx & Hb). exists (a :: before), after.
        split; [done|]. split; [done|]. intros y Hy.
        apply elem_of_cons in Hy as [->|Hy]; [done|by apply Hb].
      * intros ([|b before] & after & Heq & Hx & Hb).
        -- injection Heq as -> _. congruence.
        -- injection Heq as -> ->. exists before, after. split; [done|].
           split; [done|]. intros y Hy. apply Hb. by apply list_elem_of_further.
Qed.

(** X19. [hasMochConfigured] returns the first key of the registry, in
    declaration order, under which the configuration holds a non-empty
    credential, whatever the order of the configuration's own keys; the
    returned key is non-empty, hence truthy. *)
Theorem hasMochConfigured_first (config : option Config.t) (mochKey : jsstring) :
  hasMochConfigured config = Some mochKey
  ↔ ∃ before after,
      Object_keys MochOptions = before ++ mochKey :: after
      ∧ truthy (config ≫= fun c => assoc (Config.props c) mochKey) = true
      ∧ (∀ k, k ∈ before →
           truthy (config ≫= fun c => assoc (Config.props c) k) = false)
      ∧ truthy (Some mochKey) = true.
Proof.
  unfold hasMochConfigured. rewrite find_first. split.
  - intros (before & after & Heq & Hk & Hb). exists before, after.
    split; [done|]. split; [done|]. split; [done|].
    apply MochOptions_keys_truthy. rewrite Heq.
    apply elem_of_app. right. apply list_elem_of_here.
  - intros (before & after & Heq & Hk & Hb & _). by exists before, after.
Qed.

Lemma hasMochConfigured_first_witness :
  hasMochConfigured (Some pmThenRd) = Some (lit "realdebrid").
Proof.
  refine (proj2 (hasMochConfigured_first (Some pmThenRd) (lit "realdebrid")) _).
  exists [], (lit <$> ["premiumize"; "alldebrid"; "debridlink"; "offcloud"; "putio"]%string).
  split; [reflexivity|]. split; [reflexivity|]. split; [|reflexivity].
  intros k Hk. by apply elem_of_nil in Hk.
Defined.

(** ** The health policy after merging *)

(** X20. The health policy that [populateDownloadLinks] applies to the
    merged list judges a candidate as it would on the candidates
    themselves: merging changes no title, so the number of seeded
    candidates that the policy compares with 5 is that of the input. *)
Theorem isHealthyStreamForDebrid_merged `{External} streams mochResults config
    stream :
  isHealthyStreamForDebrid
    (seededStreams (cachedStreams streams mochResults config)) stream
  = isHealthyStreamForDebrid (seededStreams streams) stream.
Proof.
  unfold isHealthyStreamForDebrid. by rewrite seededStreams_cachedStreams.
Qed.
